(** * python-server/websocket_server.py: registry and broadcast fan-out

    A shallow embedding of [WebSocketServer] (register_client,
    unregister_client, broadcast, send_to_client, handle_client) as
    computations over an explicit world: the shared [connected_clients]
    set, the state of every transport, the trace of sends and log records,
    and the clock read by [datetime.now()].

    Python exceptions, those that derive from [Exception], are values of
    [exn]; the cancellation of a task is not modelled.  A coroutine of the
    server is a
    function from the world to a result and a new world, so that the
    [try]/[except]/[finally] structure of the source can be written as it
    is.  asyncio runs on one thread: a coroutine is interrupted only where
    it awaits.  The model runs each awaited send to completion, one after
    the other in the order of the task list; other tasks get to run where
    the handler waits for its next inbound frame ([Interleave]). *)

From stdpp Require Import base gmap sets list strings pretty.

#[local] Set Warnings "-clear-no-such-hyp".

Open Scope string_scope.
Open Scope list_scope.

(** ** Values *)

(** Connections are compared by identity only; a handle stands for one
    accepted [WebSocketServerProtocol] object. *)
Abbreviation handle := nat (only parsing).

(** The exception classes the source distinguishes in its [except]
    clauses, and everything else that derives from [Exception].  What does
    not derive from it ([asyncio.CancelledError], [KeyboardInterrupt]) is
    outside the model: no run below has a task cancelled, and an
    [except Exception] clause is an arm for every [exn]. *)
Inductive exn : Type :=
  | JSONDecodeError
  | AttributeError
  | ConnectionClosed
  | OtherError (what : string).

#[global] Instance exn_eq_dec : EqDecision exn.
Proof. solve_decision. Defined.

Inductive result (A : Type) : Type :=
  | Ok (a : A)
  | Raise (e : exn).
Arguments Ok {A} a.
Arguments Raise {A} e.

#[global] Instance result_eq_dec {A} `{EqDecision A} : EqDecision (result A).
Proof. solve_decision. Defined.

(** What [json.loads] returns and [json.dumps] takes.  A [dict] is kept as
    its list of items; [dict_get] reads the first item of a key. *)
#[local] Set Warnings "-register-all".
Inductive json : Type :=
  | JNull
  | JBool (b : bool)
  | JInt (n : Z)
  | JFloat (repr : string)
  | JStr (s : string)
  | JList (items : list json)
  | JDict (items : list (string * json)).

Fixpoint dict_get (key : string) (items : list (string * json)) : option json :=
  match items with
  | [] => None
  | (k, v) :: rest => if decide (k = key) then Some v else dict_get key rest
  end.

Definition items_of (j : json) : list (string * json) :=
  match j with
  | JDict items => items
  | _ => []
  end.

(** The library functions the server calls: [json.loads], [json.dumps] and
    [datetime.now().isoformat()] (the text of the n-th reading of the
    clock). *)
Class Library : Type := {
  json_loads : string → result json;
  json_dumps : json → string;
  isoformat : nat → string
}.

(** ** The world *)

Inductive level : Type := INFO | WARNING | ERROR.

(** One constructor per [logger] call of the source. *)
Inductive log_msg : Type :=
  | ClientConnected (client_count : nat)
  | ClientDisconnected (client_count : nat)
  | NoClientsForBroadcast
  | BroadcastError (e : exn)
  | SendToClosedConnection
  | ErrorSendingToClient (e : exn)
  | ReceivedMessage (message : string)
  | InvalidJSONReceived (message : string)
  | ErrorProcessingMessage (e : exn)
  | ConnectionClosedNormally
  | ErrorInClientHandler (e : exn).

(** What the server does to the outside: a call of [websocket.send] with
    its outcome, or a log record. *)
Inductive event : Type :=
  | EvSend (to : handle) (payload : string) (outcome : result unit)
  | EvLog (lvl : level) (msg : log_msg).

(** [transport] holds the connections whose [send] raises, with the
    exception raised; a connection that is absent accepts the frame.  One
    turn of the handler sends to a connection at most once, so one state
    per connection is all a turn can observe; between two frames the
    states may change ([Interleave] below). *)
Record world : Type := World {
  connected_clients : gset nat;
  transport : gmap nat exn;
  trace : list event;
  clock : nat
}.

Definition set_clients (f : gset nat → gset nat) (w : world) : world :=
  World (f (connected_clients w)) (transport w) (trace w) (clock w).

Definition emit (ev : event) (w : world) : world :=
  World (connected_clients w) (transport w) (trace w ++ [ev]) (clock w).

Definition tick (w : world) : world :=
  World (connected_clients w) (transport w) (trace w) (S (clock w)).

(** ** Coroutines *)

Definition M (A : Type) : Type := world → result A * world.

#[global] Instance M_ret : MRet M := λ A a w, (Ok a, w).

#[global] Instance M_bind : MBind M := λ A B f m w,
  match m w with
  | (Ok a, w') => f a w'
  | (Raise e, w') => (Raise e, w')
  end.

Definition raise {A} (e : exn) : M A := λ w, (Raise e, w).

(** [try: body except e: handler e]; an exception raised by the handler
    itself is not handled here. *)
Definition try_except {A} (body : M A) (handler : exn → M A) : M A := λ w,
  match body w with
  | (Ok a, w') => (Ok a, w')
  | (Raise e, w') => handler e w'
  end.

(** [try: body finally: cleanup]; the cleanup runs on every exit, and an
    exception of the cleanup replaces the outcome of the body. *)
Definition try_finally {A} (body : M A) (cleanup : M unit) : M A := λ w,
  match body w with
  | (r, w') =>
      match cleanup w' with
      | (Ok _, w'') => (r, w'')
      | (Raise e, w'') => (Raise e, w'')
      end
  end.

Definition log (lvl : level) (msg : log_msg) : M unit := λ w,
  (Ok tt, emit (EvLog lvl msg) w).

(** [datetime.now().isoformat()] *)
Definition datetime_now `{Library} : M string := λ w,
  (Ok (isoformat (clock w)), tick w).

(** [await websocket.send(payload)] *)
Definition websocket_send (websocket : handle) (payload : string) : M unit := λ w,
  match transport w !! websocket with
  | None => (Ok tt, emit (EvSend websocket payload (Ok tt)) w)
  | Some e => (Raise e, emit (EvSend websocket payload (Raise e)) w)
  end.

(** The three operations of the source on the shared set. *)
Definition set_add (x : nat) (s : gset nat) : gset nat := {[x]} ∪ s.
Definition set_discard (x : nat) (s : gset nat) : gset nat := s ∖ {[x]}.

Definition clients_add (websocket : handle) : M unit := λ w,
  (Ok tt, set_clients (set_add websocket) w).

Definition clients_discard (websocket : handle) : M unit := λ w,
  (Ok tt, set_clients (set_discard websocket) w).

Definition clients : M (gset nat) := λ w, (Ok (connected_clients w), w).

(** [asyncio.gather] with [return_exceptions=True]: every task runs, an
    exception of a task becomes its entry of the result list. *)
Fixpoint run_all {A} (tasks : list (M A)) (w : world) : list (result A) * world :=
  match tasks with
  | [] => ([], w)
  | t :: rest =>
      match t w with
      | (r, w') =>
          match run_all rest w' with
          | (rs, w'') => (r :: rs, w'')
          end
      end
  end.

Definition gather {A} (tasks : list (M A)) : M (list (result A)) := λ w,
  match run_all tasks w with
  | (rs, w') => (Ok rs, w')
  end.

(** ** WebSocketServer *)

Section Server.
Context `{Library}.

(** send_to_client (lines 141-156) *)
Definition send_to_client (websocket : handle) (message : string) : M unit :=
  try_except
    (websocket_send websocket message)
    (λ e, match e with
          | ConnectionClosed =>
              log WARNING SendToClosedConnection ;;
              clients_discard websocket
          | _ => log ERROR (ErrorSendingToClient e)
          end).

(** The loop over the gathered results (lines 137-139). *)
Fixpoint log_exceptions (results : list (result unit)) : M unit :=
  match results with
  | [] => mret tt
  | Ok _ :: rest => log_exceptions rest
  | Raise e :: rest => log ERROR (BroadcastError e) ;; log_exceptions rest
  end.

(** The clients a broadcast builds a send task for (lines 125-128);
    [exclude = None] is the default argument, which no client equals. *)
Definition recipients (exclude : option handle) (cs : gset nat) : list handle :=
  filter (λ client, Some client ≠ exclude) (elements cs).

Definition send_tasks (message_json : string) (exclude : option handle)
    (cs : gset nat) : list (M unit) :=
  map (λ client, send_to_client client message_json) (recipients exclude cs).

(** broadcast (lines 103-139) *)
Definition broadcast (message : json) (exclude : option handle) : M unit :=
  cs ← clients;
  if decide (cs = ∅) then
    log WARNING NoClientsForBroadcast
  else
    let message_json := json_dumps message in
    let tasks := send_tasks message_json exclude cs in
    match tasks with
    | [] => mret tt
    | _ =>
        results ← gather tasks;
        log_exceptions results
    end.

Definition welcome_msg (client_count : nat) (timestamp : string) : json :=
  JDict [("type", JStr "system");
         ("message", JStr "Connected to server");
         ("timestamp", JStr timestamp);
         ("client_count", JInt (Z.of_nat client_count))].

Definition joined_msg (client_count : nat) (timestamp : string) : json :=
  JDict [("type", JStr "system");
         ("message", JStr ("New client joined. Total: " +:+ pretty client_count));
         ("timestamp", JStr timestamp)].

Definition left_msg (client_count : nat) (timestamp : string) : json :=
  JDict [("type", JStr "system");
         ("message", JStr ("Client left. Total: " +:+ pretty client_count));
         ("timestamp", JStr timestamp)].

(** register_client (lines 58-83) *)
Definition register_client (websocket : handle) : M unit :=
  clients_add websocket ;;
  cs ← clients;
  let client_count := size cs in
  log INFO (ClientConnected client_count) ;;
  t ← datetime_now;
  websocket_send websocket (json_dumps (welcome_msg client_count t)) ;;
  t' ← datetime_now;
  broadcast (joined_msg client_count t') (Some websocket).

(** unregister_client (lines 85-101) *)
Definition unregister_client (websocket : handle) : M unit :=
  clients_discard websocket ;;
  cs ← clients;
  let client_count := size cs in
  log INFO (ClientDisconnected client_count) ;;
  t ← datetime_now;
  broadcast (left_msg client_count t) None.

(** [data.get(key, default)]: only a dict has the method. *)
Definition py_get (data : json) (key : string) (default : json) : M json :=
  match data with
  | JDict items => mret (from_option id default (dict_get key items))
  | _ => raise AttributeError
  end.

Definition broadcast_msg (content sender : json) (timestamp : string) : json :=
  JDict [("type", JStr "message");
         ("content", content);
         ("sender", sender);
         ("timestamp", JStr timestamp)].

Definition error_msg : json :=
  JDict [("type", JStr "error");
         ("message", JStr "Invalid message format")].

(** The body of the inner [try] (lines 184-196). *)
Definition process_message (message : string) : M unit :=
  data ← (λ w, (json_loads message, w));
  content ← py_get data "content" (JStr "");
  sender ← py_get data "sender" (JStr "anonymous");
  t ← datetime_now;
  broadcast (broadcast_msg content sender t) None.

(** One turn of the [async for] loop (lines 181-206). *)
Definition on_message (websocket : handle) (message : string) : M unit :=
  log INFO (ReceivedMessage message) ;;
  try_except
    (process_message message)
    (λ e, match e with
          | JSONDecodeError =>
              log ERROR (InvalidJSONReceived message) ;;
              websocket_send websocket (json_dumps error_msg)
          | _ => log ERROR (ErrorProcessingMessage e)
          end).

(** What the handler meets while it iterates over the connection: a
    frame, or other tasks running while it waits for the next one. *)
Inductive inbound : Type :=
  | Recv (message : string)
  | Interleave (others : world → world).

(** [async for message in websocket] (line 180): [closing] is how the
    iteration ends, [Ok tt] on a normal close and [Raise e] when the
    iterator raises (abnormal close, keepalive timeout). *)
Fixpoint inbound_loop (websocket : handle) (frames : list inbound)
    (closing : result unit) : M unit :=
  match frames with
  | [] => λ w, (closing, w)
  | Recv message :: rest =>
      on_message websocket message ;;
      inbound_loop websocket rest closing
  | Interleave others :: rest =>
      (λ w, (Ok tt, others w)) ;;
      inbound_loop websocket rest closing
  end.

(** The outer [try] with its two [except] clauses (lines 178-211). *)
Definition session (websocket : handle) (frames : list inbound)
    (closing : result unit) : M unit :=
  try_except
    (inbound_loop websocket frames closing)
    (λ e, match e with
          | ConnectionClosed => log INFO ConnectionClosedNormally
          | _ => log ERROR (ErrorInClientHandler e)
          end).

(** handle_client (lines 158-214) *)
Definition handle_client (websocket : handle) (path : string)
    (frames : list inbound) (closing : result unit) : M unit :=
  register_client websocket ;;
  try_finally
    (session websocket frames closing)
    (unregister_client websocket).

End Server.

(** ** A library instance to run the model on *)

Definition dquote : string := String (Ascii.ascii_of_nat 34) "".

(** [json.dumps] with its default separators, for values whose strings
    need no escaping. *)
Fixpoint plain_dumps (j : json) : string :=
  match j with
  | JNull => "null"
  | JBool true => "true"
  | JBool false => "false"
  | JInt n => pretty n
  | JFloat repr => repr
  | JStr s => dquote +:+ s +:+ dquote
  | JList items => "[" +:+ String.concat ", " (map plain_dumps items) +:+ "]"
  | JDict items =>
      "{" +:+ String.concat ", "
                (map (λ kv, match kv with
                            | (k, v) => dquote +:+ k +:+ dquote +:+ ": " +:+ plain_dumps v
                            end) items) +:+ "}"
  end.

Definition hi_alice : json :=
  JDict [("content", JStr "hi"); ("sender", JStr "alice"); ("room", JStr "lobby")].

(** A thousand opening brackets: no JSON either, but [json.loads] gives
    up on it with RecursionError before it can reject it. *)
Definition deep_brackets : string := String.concat "" (replicate 1000 "[").

(** [json.loads] on the frames of the examples below: a chat payload with
    an extra field, an empty object, an array, text that is no JSON, and
    text nested too deeply to be parsed. *)
Definition sample_frames : list (string * result json) :=
  [(plain_dumps hi_alice, Ok hi_alice);
   ("{}", Ok (JDict []));
   ("[1, 2]", Ok (JList [JInt 1; JInt 2]));
   ("not-json", Raise JSONDecodeError);
   (deep_brackets, Raise (OtherError "RecursionError"))].

Fixpoint table_loads (table : list (string * result json)) (text : string) : result json :=
  match table with
  | [] => Raise JSONDecodeError
  | (t, r) :: rest => if decide (t = text) then r else table_loads rest text
  end.

Definition sample_library : Library := {|
  json_loads := table_loads sample_frames;
  json_dumps := plain_dumps;
  isoformat := λ n, "2024-01-01T00:00:" +:+ pretty n
|}.

(** ** Observations on the trace *)

(** The events added to the trace between two worlds of one run. *)
Definition new_events (w w' : world) : list event :=
  drop (length (trace w)) (trace w').

(** The calls of [websocket.send] among some events: recipient and frame. *)
Fixpoint sends (evs : list event) : list (handle * string) :=
  match evs with
  | [] => []
  | EvSend to payload _ :: rest => (to, payload) :: sends rest
  | EvLog _ _ :: rest => sends rest
  end.

Definition sent_to (evs : list event) : list handle := (sends evs).*1.

(** The sends that did not raise. *)
Fixpoint delivered (evs : list event) : list (handle * string) :=
  match evs with
  | [] => []
  | EvSend to payload (Ok _) :: rest => (to, payload) :: delivered rest
  | _ :: rest => delivered rest
  end.

(** BroadcastOutcome of the specification, read off a send. *)
Inductive outcome : Type :=
  | Delivered
  | Closed
  | Failed (reason : exn).

Definition outcome_of (r : result unit) : outcome :=
  match r with
  | Ok _ => Delivered
  | Raise ConnectionClosed => Closed
  | Raise e => Failed e
  end.

Fixpoint outcomes (evs : list event) : list outcome :=
  match evs with
  | [] => []
  | EvSend _ _ r :: rest => outcome_of r :: outcomes rest
  | EvLog _ _ :: rest => outcomes rest
  end.


(** A turn of the [async for] loop that ends without an exception: the
    loop goes on to the next frame and the session stays active. *)
Definition stays_active `{Library} (websocket : handle) (message : string)
    (w : world) : Prop :=
  (on_message websocket message w).1 = Ok tt.

(** What one [send_to_client] leaves behind, by the state of the
    recipient's transport. *)
Definition send_events (tr : gmap nat exn) (message : string) (client : handle)
    : list event :=
  match tr !! client with
  | None => [EvSend client message (Ok tt)]
  | Some ConnectionClosed =>
      [EvSend client message (Raise ConnectionClosed);
       EvLog WARNING SendToClosedConnection]
  | Some e =>
      [EvSend client message (Raise e); EvLog ERROR (ErrorSendingToClient e)]
  end.

(** The recipients a fan-out finds closed. *)
Definition stale (tr : gmap nat exn) (targets : list handle) : list handle :=
  filter (λ client, tr !! client = Some ConnectionClosed) targets.

(** The world after a fan-out of [message] to [targets]. *)
Definition fanned_out (message : string) (targets : list handle) (w : world) : world :=
  World (connected_clients w ∖ list_to_set (stale (transport w) targets))
        (transport w)
        (trace w ++ concat (map (send_events (transport w) message) targets))
        (clock w).

(** Worlds of the examples: three open connections; connection 1 closed
    behind the server's back; connection 3 about to connect, already
    closed. *)
Definition w_open : world := World {[1; 2; 3]} ∅ [] 0.
Definition w_one_closed : world := World {[1; 2; 3]} {[1 := ConnectionClosed]} [] 0.
Definition w_newcomer_closed : world := World {[1; 2]} {[3 := ConnectionClosed]} [] 0.
Definition w_reset : world := World {[1; 2]} {[2 := OtherError "connection reset"]} [] 0.

(** Connection 3 is open and goes on sending frames, but a write to it
    fails. *)
Definition w_write_fails : world :=
  World {[1; 2; 3]} {[3 := OtherError "write failed"]} [] 0.

(** ** Observations on whole sessions *)

(** The log records among some events. *)
Fixpoint logs (evs : list event) : list (level * log_msg) :=
  match evs with
  | [] => []
  | EvLog lvl msg :: rest => (lvl, msg) :: logs rest
  | EvSend _ _ _ :: rest => logs rest
  end.

(** The frames addressed to one connection, in order. *)
Fixpoint payloads_for (h : handle) (ss : list (handle * string)) : list string :=
  match ss with
  | [] => []
  | (to, payload) :: rest =>
      if decide (to = h) then payload :: payloads_for h rest
      else payloads_for h rest
  end.

(** What a connection receives: the frames of the sends to it that did
    not raise. *)
Definition inbox (h : handle) (evs : list event) : list string :=
  payloads_for h (delivered evs).

(** The members of a registry whose transport does not answer a send with
    ConnectionClosed. *)
Definition open_clients (tr : gmap nat exn) (cs : gset nat) : gset nat :=
  filter (λ client, tr !! client ≠ Some ConnectionClosed) cs.

(** A registry without such members: no broadcast finds a handle to evict. *)
Definition settled (w : world) : Prop :=
  ∀ client, client ∈ connected_clients w →
            transport w !! client ≠ Some ConnectionClosed.

(** An inbound history without turns of other tasks. *)
Definition only_frames (frames : list inbound) : Prop :=
  ∀ others, Interleave others ∉ frames.

(** [w'] continues [w]: the transports are as they were, the clock has
    been read [k] times, and the trace has grown by events whose sends are
    [ss], delivered where the transport accepts frames. *)
Definition extends_by (w w' : world) (ss : list (handle * string)) (k : nat) : Prop :=
  transport w' = transport w
  ∧ clock w' = clock w + k
  ∧ ∃ evs, trace w' = trace w ++ evs
           ∧ sends evs = ss
           ∧ delivered evs = filter (λ p, transport w !! p.1 = None) ss.

(** The wire form of the envelope built from an object payload at clock
    reading [n]. *)
Definition chat_payload `{Library} (items : list (string * json)) (n : nat) : string :=
  json_dumps (broadcast_msg (default (JStr "") (dict_get "content" items))
                            (default (JStr "anonymous") (dict_get "sender" items))
                            (isoformat n)).

(** The sends expected of one turn of the loop of connection [ws], with
    [members] registered and the clock at [n], and the clock readings the
    turn takes. *)
Definition turn_sends `{Library} (ws : handle) (members : list handle) (n : nat)
    (message : string) : list (handle * string) :=
  match json_loads message with
  | Ok (JDict items) => map (λ client, (client, chat_payload items n)) members
  | Raise JSONDecodeError => [(ws, json_dumps error_msg)]
  | _ => []
  end.

Definition turn_ticks `{Library} (message : string) : nat :=
  match json_loads message with
  | Ok (JDict _) => 1
  | _ => 0
  end.

Fixpoint loop_sends `{Library} (ws : handle) (members : list handle) (n : nat)
    (frames : list inbound) : list (handle * string) :=
  match frames with
  | [] => []
  | Recv message :: rest =>
      turn_sends ws members n message
      ++ loop_sends ws members (n + turn_ticks message) rest
  | Interleave _ :: rest => loop_sends ws members n rest
  end.

Fixpoint objects `{Library} (frames : list inbound) : nat :=
  match frames with
  | [] => 0
  | Recv message :: rest => turn_ticks message + objects rest
  | Interleave _ :: rest => objects rest
  end.



(** Two more worlds of the examples: nobody connected, and one open
    connection; and the frames of a short session: a chat payload, text
    that is no JSON, an array. *)
Definition w_empty : world := World ∅ ∅ [] 0.
Definition w_solo : world := World {[1]} ∅ [] 0.
Definition three_frames : list inbound :=
  [Recv (plain_dumps hi_alice); Recv "not-json"; Recv "[1, 2]"].

(** * Properties *)

Lemma world_eq (cs cs' : gset nat) tr tr' (evs evs' : list event) n n' :
  cs = cs' → tr = tr' → evs = evs' → n = n' →
  World cs tr evs n = World cs' tr' evs' n'.
Proof. by intros -> -> -> ->. Qed.

Lemma new_events_app (w w' : world) (evs : list event) :
  trace w' = trace w ++ evs → new_events w w' = evs.
Proof. intros Htr. unfold new_events. rewrite Htr. by rewrite drop_app_length. Qed.

Lemma sends_app (evs evs' : list event) :
  sends (evs ++ evs') = sends evs ++ sends evs'.
Proof.
  induction evs as [|[to payload r|lvl msg] evs IH]; simpl; [done| |done].
  by rewrite IH.
Qed.

Lemma delivered_app (evs evs' : list event) :
  delivered (evs ++ evs') = delivered evs ++ delivered evs'.
Proof.
  induction evs as [|[to payload [[]|e]|lvl msg] evs IH]; simpl; try done.
  by rewrite IH.
Qed.

Lemma outcomes_app (evs evs' : list event) :
  outcomes (evs ++ evs') = outcomes evs ++ outcomes evs'.
Proof.
  induction evs as [|[to payload r|lvl msg] evs IH]; simpl; [done| |done].
  by rewrite IH.
Qed.

Lemma sends_send_events tr message client :
  sends (send_events tr message client) = [(client, message)].
Proof. unfold send_events. by destruct (tr !! client) as [[]|]. Qed.

Lemma outcomes_send_events tr message client :
  outcomes (send_events tr message client)
  = [outcome_of (from_option Raise (Ok tt) (tr !! client))].
Proof. unfold send_events. by destruct (tr !! client) as [[]|]. Qed.

Lemma delivered_send_events_open tr message client :
  tr !! client = None →
  delivered (send_events tr message client) = [(client, message)].
Proof. unfold send_events. by intros ->. Qed.

Lemma sends_fan_out tr message (targets : list handle) :
  sends (concat (map (send_events tr message) targets))
  = map (λ client, (client, message)) targets.
Proof.
  induction targets as [|c targets IH]; simpl; [done|].
  by rewrite sends_app, sends_send_events, IH.
Qed.

Lemma outcomes_fan_out tr message (targets : list handle) :
  outcomes (concat (map (send_events tr message) targets))
  = map (λ client, outcome_of (from_option Raise (Ok tt) (tr !! client))) targets.
Proof.
  induction targets as [|c targets IH]; simpl; [done|].
  by rewrite outcomes_app, outcomes_send_events, IH.
Qed.

Lemma delivered_fan_out tr message (targets : list handle) (client : handle) :
  client ∈ targets → tr !! client = None →
  (client, message) ∈ delivered (concat (map (send_events tr message) targets)).
Proof.
  intros Hin Hopen.
  induction targets as [|c targets IH]; [by apply elem_of_nil in Hin|].
  simpl. rewrite delivered_app. apply elem_of_app.
  apply elem_of_cons in Hin as [<-|Hin].
  - left. rewrite delivered_send_events_open by done. apply elem_of_cons. by left.
  - right. by apply IH.
Qed.

(** The recipients of a broadcast. *)

Lemma recipients_none (cs : gset nat) : recipients None cs = elements cs.
Proof.
  unfold recipients. induction (elements cs) as [|c l IH]; [done|].
  rewrite filter_cons_True by done. by rewrite IH.
Qed.

Lemma elem_of_recipients (exclude : option handle) (cs : gset nat) (client : handle) :
  client ∈ recipients exclude cs ↔ client ∈ cs ∧ Some client ≠ exclude.
Proof.
  unfold recipients. rewrite list_elem_of_filter, elem_of_elements. tauto.
Qed.

Lemma NoDup_recipients (exclude : option handle) (cs : gset nat) :
  NoDup (recipients exclude cs).
Proof. apply NoDup_filter, NoDup_elements. Qed.



(** ** What the coroutines compute *)

Section Runs.
Context `{Library}.

Lemma fanned_out_nil message w :
  fanned_out message [] w = w.
Proof.
  destruct w as [cs tr evs n]. unfold fanned_out, stale. simpl.
  apply world_eq; [set_solver|done|by rewrite app_nil_r|done].
Qed.

Lemma fanned_out_cons message client targets w :
  fanned_out message targets (fanned_out message [client] w)
  = fanned_out message (client :: targets) w.
Proof.
  destruct w as [cs tr evs n]. unfold fanned_out, stale. simpl.
  apply world_eq; [|done| |done].
  - destruct (decide (tr !! client = Some ConnectionClosed)) as [Hc|Hc].
    + rewrite !filter_cons_True by done. set_solver.
    + rewrite !filter_cons_False by done. set_solver.
  - by rewrite app_nil_r, app_assoc.
Qed.

(** send_to_client handles every exception of the send itself. *)
Lemma send_to_client_run (websocket : handle) (message : string) (w : world) :
  send_to_client websocket message w = (Ok tt, fanned_out message [websocket] w).
Proof.
  destruct w as [cs tr evs n].
  unfold send_to_client, try_except, websocket_send, fanned_out, stale, send_events.
  simpl. destruct (tr !! websocket) as [e|] eqn:Htr; simpl.
  - destruct e; simpl.
    all: unfold mbind, M_bind, log, clients_discard, emit, set_clients, set_discard; simpl.
    all: f_equal; (apply world_eq; [|done| |done]);
      rewrite ?app_nil_r, <-?app_assoc; try done.
    + rewrite filter_cons_False by congruence. set_solver.
    + rewrite filter_cons_False by congruence. set_solver.
    + rewrite filter_cons_True by done. set_solver.
    + rewrite filter_cons_False by congruence. set_solver.
  - f_equal. unfold emit. simpl. apply world_eq; [|done..].
    rewrite filter_cons_False by congruence. set_solver.
Qed.

Lemma run_all_send_tasks (message : string) (targets : list handle) (w : world) :
  run_all (map (λ client, send_to_client client message) targets) w
  = (replicate (length targets) (Ok tt), fanned_out message targets w).
Proof.
  revert w. induction targets as [|c targets IH]; intros w; simpl.
  - by rewrite fanned_out_nil.
  - rewrite send_to_client_run, IH. by rewrite fanned_out_cons.
Qed.

Lemma log_exceptions_none (n : nat) (w : world) :
  log_exceptions (replicate n (Ok tt)) w = (Ok tt, w).
Proof. induction n as [|n IH]; simpl; [done|apply IH]. Qed.

(** broadcast, on an empty registry and otherwise. *)
Lemma broadcast_run_empty (message : json) (exclude : option handle) (w : world) :
  connected_clients w = ∅ →
  broadcast message exclude w = (Ok tt, emit (EvLog WARNING NoClientsForBroadcast) w).
Proof.
  intros Hcs. unfold broadcast, mbind, M_bind, clients. simpl.
  by rewrite decide_True by done.
Qed.

Lemma broadcast_run (message : json) (exclude : option handle) (w : world) :
  connected_clients w ≠ ∅ →
  broadcast message exclude w
  = (Ok tt, fanned_out (json_dumps message)
                       (recipients exclude (connected_clients w)) w).
Proof.
  intros Hcs. unfold broadcast, mbind, M_bind, clients. simpl.
  rewrite decide_False by done. unfold send_tasks.
  destruct (recipients exclude (connected_clients w)) as [|c targets] eqn:Hr.
  - simpl. by rewrite fanned_out_nil.
  - rewrite <-Hr. clear Hr.
    destruct (map _ (recipients exclude (connected_clients w))) eqn:Hm.
    + apply map_eq_nil in Hm. rewrite Hm. simpl. by rewrite fanned_out_nil.
    + rewrite <-Hm. unfold gather. rewrite run_all_send_tasks.
      by rewrite log_exceptions_none.
Qed.

(** Every broadcast returns normally, and this is all it does: it evicts
    the recipients it finds closed and extends the trace by one send per
    recipient, each carrying the one serialisation of the message. *)
Lemma broadcast_effect (message : json) (exclude : option handle) (w : world) :
  let targets := recipients exclude (connected_clients w) in
  ∃ evs,
    broadcast message exclude w
    = (Ok tt, World (connected_clients w ∖ list_to_set (stale (transport w) targets))
                    (transport w) (trace w ++ evs) (clock w))
    ∧ sends evs = map (λ client, (client, json_dumps message)) targets
    ∧ outcomes evs
      = map (λ client, outcome_of (from_option Raise (Ok tt) (transport w !! client)))
            targets
    ∧ ∀ client, client ∈ targets → transport w !! client = None →
        (client, json_dumps message) ∈ delivered evs.
Proof.
  intros targets. destruct (decide (connected_clients w = ∅)) as [Hcs|Hcs].
  - exists [EvLog WARNING NoClientsForBroadcast].
    assert (targets = []) as ->.
    { unfold targets, recipients. by rewrite Hcs, elements_empty. }
    rewrite broadcast_run_empty by done. split_and!; [|done|done|].
    + f_equal. destruct w as [cs tr evs n]. unfold emit. simpl in *.
      apply world_eq; [set_solver|done..].
    + intros c Hc. by apply elem_of_nil in Hc.
  - exists (concat (map (send_events (transport w) (json_dumps message)) targets)).
    rewrite broadcast_run by done. split_and!; [done| | |].
    + apply sends_fan_out.
    + apply outcomes_fan_out.
    + intros c Hc Hopen. by apply delivered_fan_out.
Qed.

Lemma broadcast_ok (message : json) (exclude : option handle) (w : world) :
  (broadcast message exclude w).1 = Ok tt.
Proof. destruct (broadcast_effect message exclude w) as (evs & -> & _). done. Qed.

Lemma broadcast_clients (message : json) (exclude : option handle) (w : world) :
  connected_clients (broadcast message exclude w).2
  = connected_clients w
      ∖ list_to_set (stale (transport w) (recipients exclude (connected_clients w))).
Proof. destruct (broadcast_effect message exclude w) as (evs & -> & _). done. Qed.

Lemma broadcast_sends (message : json) (exclude : option handle) (w : world) :
  sends (new_events w (broadcast message exclude w).2)
  = map (λ client, (client, json_dumps message))
        (recipients exclude (connected_clients w)).
Proof.
  destruct (broadcast_effect message exclude w) as (evs & -> & Hs & _). simpl.
  by rewrite (new_events_app _ _ evs).
Qed.


Lemma elem_of_stale tr (targets : list handle) (client : handle) :
  client ∈ stale tr targets ↔ tr !! client = Some ConnectionClosed ∧ client ∈ targets.
Proof. unfold stale. by rewrite list_elem_of_filter. Qed.

(** The two call sites of broadcast that the fan-out claims are about. *)

Lemma on_message_object (websocket : handle) (message : string)
    (items : list (string * json)) (w : world) :
  json_loads message = Ok (JDict items) →
  on_message websocket message w
  = broadcast (broadcast_msg (default (JStr "") (dict_get "content" items))
                             (default (JStr "anonymous") (dict_get "sender" items))
                             (isoformat (clock w)))
              None
              (tick (emit (EvLog INFO (ReceivedMessage message)) w)).
Proof.
  intros Hloads.
  unfold on_message, mbind, M_bind, log, try_except, process_message. simpl.
  unfold mbind, M_bind. rewrite Hloads. simpl.
  unfold mbind, M_bind, mret, M_ret, datetime_now. simpl.
  match goal with |- context [broadcast ?m ?x ?v] =>
    destruct (broadcast_effect m x v) as (evs & -> & _) end.
  done.
Qed.

Lemma register_client_welcomed (websocket : handle) (w : world) :
  transport w !! websocket = None →
  let client_count := size (set_add websocket (connected_clients w)) in
  register_client websocket w
  = broadcast (joined_msg client_count (isoformat (S (clock w))))
              (Some websocket)
              (tick (emit (EvSend websocket
                             (json_dumps (welcome_msg client_count (isoformat (clock w))))
                             (Ok tt))
                 (tick (emit (EvLog INFO (ClientConnected client_count))
                    (set_clients (set_add websocket) w))))).
Proof.
  intros Hopen. unfold register_client, mbind, M_bind, clients_add, clients, log,
    datetime_now, websocket_send. simpl. by rewrite Hopen.
Qed.

Lemma unregister_client_run (websocket : handle) (w : world) :
  let client_count := size (set_discard websocket (connected_clients w)) in
  unregister_client websocket w
  = broadcast (left_msg client_count (isoformat (clock w))) None
              (tick (emit (EvLog INFO (ClientDisconnected client_count))
                 (set_clients (set_discard websocket) w))).
Proof. done. Qed.

(** The inner [try] body, by what [json.loads] makes of the frame. *)
Lemma process_message_run (message : string) (w : world) :
  process_message message w
  = match json_loads message with
    | Raise e => (Raise e, w)
    | Ok (JDict items) =>
        broadcast (broadcast_msg (default (JStr "") (dict_get "content" items))
                                 (default (JStr "anonymous") (dict_get "sender" items))
                                 (isoformat (clock w)))
                  None (tick w)
    | Ok _ => (Raise AttributeError, w)
    end.
Proof.
  unfold process_message, mbind, M_bind.
  destruct (json_loads message) as [[]|e]; done.
Qed.

(** One turn of the loop, by what [json.loads] makes of the frame. *)
Lemma on_message_run (websocket : handle) (message : string) (w : world) :
  let w1 := emit (EvLog INFO (ReceivedMessage message)) w in
  on_message websocket message w
  = match json_loads message with
    | Ok (JDict items) =>
        broadcast (broadcast_msg (default (JStr "") (dict_get "content" items))
                                 (default (JStr "anonymous") (dict_get "sender" items))
                                 (isoformat (clock w)))
                  None (tick w1)
    | Ok _ => (Ok tt, emit (EvLog ERROR (ErrorProcessingMessage AttributeError)) w1)
    | Raise JSONDecodeError =>
        websocket_send websocket (json_dumps error_msg)
          (emit (EvLog ERROR (InvalidJSONReceived message)) w1)
    | Raise e => (Ok tt, emit (EvLog ERROR (ErrorProcessingMessage e)) w1)
    end.
Proof.
  intros w1. destruct (json_loads message) as [v|e] eqn:Hloads.
  - destruct v; try (by apply on_message_object);
      unfold on_message, mbind, M_bind, log, try_except; simpl; fold w1;
      by rewrite process_message_run, Hloads.
  - unfold on_message, mbind, M_bind, log, try_except. simpl. fold w1.
    rewrite process_message_run, Hloads. by destruct e.
Qed.

(** A turn on a frame that is no JSON: two log records and the send of
    the error envelope, whose outcome is the outcome of the turn. *)
Lemma on_message_invalid_json (websocket : handle) (message : string) (w : world) :
  json_loads message = Raise JSONDecodeError →
  let outcome := from_option Raise (Ok tt) (transport w !! websocket) in
  on_message websocket message w
  = (outcome,
     World (connected_clients w) (transport w)
           (trace w ++ [EvLog INFO (ReceivedMessage message);
                        EvLog ERROR (InvalidJSONReceived message);
                        EvSend websocket (json_dumps error_msg) outcome])
           (clock w)).
Proof.
  intros Hloads. rewrite on_message_run, Hloads. unfold websocket_send, emit.
  simpl. destruct (transport w !! websocket); simpl; by rewrite <-!app_assoc.
Qed.

(** A turn lets an exception out only from the send of the error reply. *)
Lemma on_message_raises (websocket : handle) (message : string) (w : world) (e : exn) :
  (on_message websocket message w).1 = Raise e →
  json_loads message = Raise JSONDecodeError ∧ transport w !! websocket = Some e.
Proof.
  rewrite on_message_run. cbv zeta.
  destruct (json_loads message) as [v|e'].
  - destruct v; simpl; try done. by rewrite broadcast_ok.
  - destruct e'; simpl; try done. unfold websocket_send. simpl.
    destruct (transport w !! websocket) as [e'|]; simpl; [|done].
    intros [= ->]. done.
Qed.

(** A turn leaves the transports as they are. *)
Lemma on_message_transport (websocket : handle) (message : string) (w : world) :
  transport (on_message websocket message w).2 = transport w.
Proof.
  rewrite on_message_run. cbv zeta.
  destruct (json_loads message) as [v|e].
  - destruct v; try done.
    match goal with |- context [broadcast ?m ?x ?v] =>
      destruct (broadcast_effect m x v) as (evs & -> & _) end.
    done.
  - destruct e; try done. unfold websocket_send. simpl.
    by destruct (transport w !! websocket).
Qed.

(** How the loop can end: it runs through all the frames and ends as the
    iteration over the connection ends; or it stops at a frame that is
    rejected with JSONDecodeError, in the world [w0] that the frames
    before it have led to, because the send of the error reply raises
    there. *)
Lemma inbound_loop_exit (websocket : handle) (frames : list inbound)
    (closing : result unit) (w : world) (r : result unit) (w' : world) :
  inbound_loop websocket frames closing w = (r, w') →
  (r = closing ∧ inbound_loop websocket frames (Ok tt) w = (Ok tt, w'))
  ∨ ∃ pre message post e w0,
      frames = pre ++ Recv message :: post
      ∧ inbound_loop websocket pre (Ok tt) w = (Ok tt, w0)
      ∧ json_loads message = Raise JSONDecodeError
      ∧ transport w0 !! websocket = Some e
      ∧ r = Raise e
      ∧ w' = (on_message websocket message w0).2.
Proof.
  revert w. induction frames as [|[message|others] rest IH]; intros w Hloop.
  - left. simpl in Hloop. injection Hloop as <- <-. done.
  - simpl in Hloop. unfold mbind, M_bind in Hloop.
    destruct (on_message websocket message w) as [[[]|e] w1] eqn:Hturn.
    + destruct (IH _ Hloop)
        as [[Hr Hend]|(pre & m & post & e & w0 & Hfr & Hpre & Hm & Htr & Hr & Hw')].
      * left. split; [done|]. simpl. unfold mbind, M_bind. by rewrite Hturn.
      * right. exists (Recv message :: pre), m, post, e, w0.
        split_and!; try done; try (by rewrite Hfr).
        simpl. unfold mbind, M_bind. by rewrite Hturn.
    + injection Hloop as <- <-. right. exists [], message, rest, e, w.
      destruct (on_message_raises websocket message w e) as [Hm Htr];
        [by rewrite Hturn|].
      split_and!; try done. by rewrite Hturn.
  - simpl in Hloop. unfold mbind, M_bind in Hloop.
    destruct (IH _ Hloop)
      as [[Hr Hend]|(pre & m & post & e & w0 & Hfr & Hpre & Hm & Htr & Hr & Hw')].
    + left. split; [done|]. simpl. unfold mbind, M_bind. done.
    + right. exists (Interleave others :: pre), m, post, e, w0.
      split_and!; try done; by rewrite Hfr.
Qed.

(** With no other task in between, the loop of a connection whose
    transport accepts frames runs through all of them. *)
Lemma inbound_loop_open (websocket : handle) (frames : list inbound)
    (closing : result unit) (w : world) :
  (∀ others, Interleave others ∉ frames) →
  transport w !! websocket = None →
  (inbound_loop websocket frames closing w).1 = closing.
Proof.
  revert w. induction frames as [|[message|others] rest IH]; intros w Hfr Hopen.
  - done.
  - simpl. unfold mbind, M_bind.
    pose proof (on_message_transport websocket message w) as Htr.
    destruct (on_message websocket message w) as [[[]|e] w1] eqn:Hturn.
    + apply IH.
      * intros o Hin. apply (Hfr o). apply elem_of_cons. by right.
      * simpl in Htr. by rewrite Htr.
    + destruct (on_message_raises websocket message w e) as [_ Hfail];
        [by rewrite Hturn|]. congruence.
  - exfalso. apply (Hfr others). apply elem_of_cons. by left.
Qed.

(** The outer [try] absorbs whatever ends the loop. *)
Lemma session_ok (websocket : handle) (frames : list inbound)
    (closing : result unit) (w : world) :
  (session websocket frames closing w).1 = Ok tt.
Proof.
  unfold session, try_except.
  destruct (inbound_loop websocket frames closing w) as [[[]|e] w']; [done|].
  by destruct e.
Qed.

(** Once registration has returned, the handler ends in unregister_client,
    run on the world the loop has left. *)
Lemma handle_client_run (websocket : handle) (path : string)
    (frames : list inbound) (closing : result unit) (w : world) :
  (register_client websocket w).1 = Ok tt →
  handle_client websocket path frames closing w
  = unregister_client websocket
      (session websocket frames closing (register_client websocket w).2).2.
Proof.
  intros Hreg. unfold handle_client, mbind, M_bind, try_finally.
  destruct (register_client websocket w) as [r w1]. simpl in Hreg. subst r. simpl.
  pose proof (session_ok websocket frames closing w1) as Hs.
  destruct (session websocket frames closing w1) as [r w2]. simpl in *. subst r.
  rewrite unregister_client_run. cbv zeta.
  match goal with |- context [broadcast ?m ?x ?v] =>
    destruct (broadcast_effect m x v) as (evs & -> & _) end.
  done.
Qed.

End Runs.

(** ** The claims *)

Section Claims.
Context `{Library}.

(** C9. The registry has set semantics: adding a handle twice is adding it
    once, for the set and for its count; adding a handle that is present
    and discarding one that is absent both leave the set (and its count)
    as it was; neither operation ever raises. *)
Theorem registry_set_semantics (s : gset nat) (h : handle) :
  set_add h (set_add h s) = set_add h s
  ∧ size (set_add h (set_add h s)) = size (set_add h s)
  ∧ (h ∈ s → set_add h s = s ∧ size (set_add h s) = size s)
  ∧ (h ∉ s → set_discard h s = s ∧ size (set_discard h s) = size s)
  ∧ set_discard h (set_discard h s) = set_discard h s
  ∧ (∀ w, (clients_add h w).1 = Ok tt
          ∧ connected_clients (clients_add h w).2 = set_add h (connected_clients w))
  ∧ (∀ w, (clients_discard h w).1 = Ok tt
          ∧ connected_clients (clients_discard h w).2
            = set_discard h (connected_clients w)).
Proof.
  unfold set_add, set_discard.
  assert ({[h]} ∪ ({[h]} ∪ s) = {[h]} ∪ s) as Hadd by set_solver.
  split_and!.
  - done.
  - by rewrite Hadd.
  - intros Hin. assert ({[h]} ∪ s = s) as -> by set_solver. done.
  - intros Hout. assert (s ∖ {[h]} = s) as -> by set_solver. done.
  - set_solver.
  - done.
  - done.
Qed.


(** C3. When the send to a targeted connection raises ConnectionClosed, the
    exception is handled inside send_to_client, which discards the handle;
    the broadcast still sends to every other recipient (and delivers where
    the transport is open, leaving those registered), the stale handle is
    gone from the registry afterwards, and the broadcast returns normally. *)
Theorem closed_recipient_is_evicted (w : world) (message : json)
    (exclude : option handle) (h : handle) :
  h ∈ connected_clients w →
  Some h ≠ exclude →
  transport w !! h = Some ConnectionClosed →
  let payload := json_dumps message in
  let w' := (broadcast message exclude w).2 in
  (∀ w0, transport w0 !! h = Some ConnectionClosed →
         (send_to_client h payload w0).1 = Ok tt
         ∧ h ∉ connected_clients (send_to_client h payload w0).2)
  ∧ (broadcast message exclude w).1 = Ok tt
  ∧ (h, payload) ∈ sends (new_events w w')
  ∧ (h ∉ connected_clients w')
  ∧ ∀ h', h' ∈ connected_clients w → Some h' ≠ exclude → h' ≠ h →
      (h', payload) ∈ sends (new_events w w')
      ∧ (transport w !! h' = None →
         (h', payload) ∈ delivered (new_events w w') ∧ h' ∈ connected_clients w').
Proof.
  intros Hin Hne Hclosed payload w'.
  assert (h ∈ recipients exclude (connected_clients w)) as Hrec
    by by apply elem_of_recipients.
  split_and!.
  - intros w0 Hc. rewrite send_to_client_run. simpl. split; [done|].
    rewrite elem_of_difference, elem_of_list_to_set, elem_of_stale.
    intros [_ Hn]. apply Hn. split; [done|]. apply elem_of_cons. by left.
  - apply broadcast_ok.
  - unfold w'. rewrite broadcast_sends.
    by apply (list_elem_of_fmap_2 (λ client, (client, _))).
  - unfold w'. rewrite broadcast_clients.
    rewrite elem_of_difference, elem_of_list_to_set, elem_of_stale. tauto.
  - intros h' Hin' Hne' Hother.
    assert (h' ∈ recipients exclude (connected_clients w)) as Hrec'
      by by apply elem_of_recipients.
    split.
    + unfold w'. rewrite broadcast_sends.
      by apply (list_elem_of_fmap_2 (λ client, (client, _))).
    + intros Hopen. unfold w'.
      destruct (broadcast_effect message exclude w) as (evs & -> & _ & _ & Hdel).
      simpl. rewrite (new_events_app _ _ evs) by done. split; [by apply Hdel|].
      rewrite elem_of_difference, elem_of_list_to_set, elem_of_stale.
      split; [done|]. intros [Hc _]. congruence.
Qed.


(** Once registration has returned, the handle is out of the registry
    when the handler finishes, however the loop ended. *)
Lemma handler_unregisters_once_registered (w : world) (ws : handle)
    (path : string) (frames : list inbound) (closing : result unit) :
  (register_client ws w).1 = Ok tt →
  (handle_client ws path frames closing w).1 = Ok tt
  ∧ ws ∉ connected_clients (handle_client ws path frames closing w).2.
Proof.
  intros Hreg. rewrite handle_client_run by done.
  rewrite unregister_client_run. cbv zeta. split; [apply broadcast_ok|].
  rewrite broadcast_clients. simpl. unfold set_discard. set_solver.
Qed.

(** C5, where the code departs from it. register_client runs before the
    [try] of handle_client: when the welcome send raises, the exception
    leaves the handler, the [finally] clause is never entered, and the
    handle added on the first line of register_client stays registered. *)
Theorem failed_welcome_leaves_handle_registered (w : world) (ws : handle)
    (path : string) (frames : list inbound) (closing : result unit) (e : exn) :
  transport w !! ws = Some e →
  let client_count := size (set_add ws (connected_clients w)) in
  let w' := (handle_client ws path frames closing w).2 in
  (handle_client ws path frames closing w).1 = Raise e
  ∧ ws ∈ connected_clients w'
  ∧ new_events w w'
    = [EvLog INFO (ClientConnected client_count);
       EvSend ws (json_dumps (welcome_msg client_count (isoformat (clock w))))
              (Raise e)].
Proof.
  intros Hclosed client_count w'. unfold w', handle_client, register_client,
    mbind, M_bind, clients_add, clients, log, datetime_now, websocket_send.
  simpl. rewrite Hclosed. simpl. split_and!; [done| |].
  - unfold set_add. set_solver.
  - apply new_events_app. simpl. by rewrite <-app_assoc.
Qed.

(** C6, as the code has it. An exception of the per-message processing
    other than JSONDecodeError is caught and logged, and the loop goes on
    with the next frame.  A turn of the loop lets an exception out exactly
    when the frame is rejected with JSONDecodeError and the send of the
    error reply on the session's own connection raises; it is then that
    exception, whichever it is.  So the loop either runs through all the
    frames and ends as the iteration over the connection ends, or it stops
    at such a frame, in the world the frames before it have led to; with
    no other task in between, on a connection whose transport accepts
    frames, no frame ends it. *)
Theorem message_errors_do_not_end_session (w : world) (ws : handle)
    (message : string) :
  let w1 := emit (EvLog INFO (ReceivedMessage message)) w in
  (∀ e, (process_message message w1).1 = Raise e → e ≠ JSONDecodeError →
     on_message ws message w
     = (Ok tt, emit (EvLog ERROR (ErrorProcessingMessage e)) w1)
     ∧ ∀ rest closing,
         inbound_loop ws (Recv message :: rest) closing w
         = inbound_loop ws rest closing
             (emit (EvLog ERROR (ErrorProcessingMessage e)) w1))
  ∧ (∀ e, (on_message ws message w).1 = Raise e
          ↔ json_loads message = Raise JSONDecodeError ∧ transport w !! ws = Some e)
  ∧ (∀ frames closing r w',
       inbound_loop ws frames closing w = (r, w') →
       (r = closing ∧ inbound_loop ws frames (Ok tt) w = (Ok tt, w'))
       ∨ ∃ pre message' post e w0,
           frames = pre ++ Recv message' :: post
           ∧ inbound_loop ws pre (Ok tt) w = (Ok tt, w0)
           ∧ json_loads message' = Raise JSONDecodeError
           ∧ transport w0 !! ws = Some e
           ∧ r = Raise e
           ∧ w' = (on_message ws message' w0).2)
  ∧ (∀ frames closing,
       (∀ others, Interleave others ∉ frames) → transport w !! ws = None →
       (inbound_loop ws frames closing w).1 = closing).
Proof.
  intros w1. split_and!.
  - intros e Hraise Hne.
    assert (on_message ws message w
            = (Ok tt, emit (EvLog ERROR (ErrorProcessingMessage e)) w1)) as Hturn.
    { rewrite on_message_run. fold w1. rewrite process_message_run in Hraise.
      destruct (json_loads message) as [v|e'].
      - destruct v; simpl in Hraise; try (by inversion Hraise).
        by rewrite broadcast_ok in Hraise.
      - simpl in Hraise. inversion Hraise; subst. by destruct e. }
    split; [done|]. intros rest closing. simpl. unfold mbind, M_bind.
    by rewrite Hturn.
  - intros e. split; [apply on_message_raises|].
    intros [Hloads Hfail].
    pose proof (on_message_invalid_json ws message w Hloads) as Hturn.
    cbv zeta in Hturn. by rewrite Hturn, Hfail.
  - intros frames closing r w'. apply inbound_loop_exit.
  - intros frames closing. apply inbound_loop_open.
Qed.

(** C7. For a frame that parses as an object, the envelope that is
    broadcast has exactly the fields type, content, sender and timestamp:
    type is "message", content and sender are the payload's fields of
    these names or the defaults "" and "anonymous", timestamp is the
    server's clock reading, and no other field of the payload has any
    influence on it. *)
Theorem chat_envelope_fields (w : world) (ws : handle) (message : string)
    (items : list (string * json)) :
  json_loads message = Ok (JDict items) →
  let content := default (JStr "") (dict_get "content" items) in
  let sender := default (JStr "anonymous") (dict_get "sender" items) in
  let timestamp := isoformat (clock w) in
  let envelope := broadcast_msg content sender timestamp in
  on_message ws message w
  = broadcast envelope None (tick (emit (EvLog INFO (ReceivedMessage message)) w))
  ∧ sends (new_events w (on_message ws message w).2)
    = map (λ client, (client, json_dumps envelope)) (elements (connected_clients w))
  ∧ items_of envelope
    = [("type", JStr "message"); ("content", content); ("sender", sender);
       ("timestamp", JStr timestamp)]
  ∧ (dict_get "content" items = None → dict_get "content" (items_of envelope) = Some (JStr ""))
  ∧ (dict_get "sender" items = None →
     dict_get "sender" (items_of envelope) = Some (JStr "anonymous"))
  ∧ (∀ v, dict_get "content" items = Some v → dict_get "content" (items_of envelope) = Some v)
  ∧ (∀ v, dict_get "sender" items = Some v → dict_get "sender" (items_of envelope) = Some v)
  ∧ (∀ key, key ∉ ["type"; "content"; "sender"; "timestamp"] →
       dict_get key (items_of envelope) = None)
  ∧ (∀ items',
       dict_get "content" items' = dict_get "content" items →
       dict_get "sender" items' = dict_get "sender" items →
       broadcast_msg (default (JStr "") (dict_get "content" items'))
                     (default (JStr "anonymous") (dict_get "sender" items'))
                     timestamp
       = envelope).
Proof.
  intros Hloads content sender timestamp envelope.
  pose proof (on_message_object ws message items w Hloads) as Hturn.
  fold content sender timestamp envelope in Hturn.
  split_and!.
  - done.
  - rewrite Hturn.
    destruct (broadcast_effect envelope None
                (tick (emit (EvLog INFO (ReceivedMessage message)) w)))
      as (evs & -> & Hs & _).
    simpl. rewrite <-app_assoc.
    rewrite (new_events_app _ _ ([EvLog INFO (ReceivedMessage message)] ++ evs))
      by done.
    simpl. rewrite Hs. simpl. by rewrite recipients_none.
  - done.
  - intros Hnone. unfold envelope, content. by rewrite Hnone.
  - intros Hnone. unfold envelope, sender. by rewrite Hnone.
  - intros v Hv. unfold envelope, content. by rewrite Hv.
  - intros v Hv. unfold envelope, sender. by rewrite Hv.
  - intros key Hkey. simpl.
    repeat (rewrite decide_False;
            [|intros <-; apply Hkey; repeat (apply elem_of_cons; (by left) || right)]).
    done.
  - intros items' Hc Hs. unfold envelope, content, sender. by rewrite Hc, Hs.
Qed.

(** C2, as the code has it. For a frame that [json.loads] rejects with
    JSONDecodeError the handler logs, calls send once, with the error
    envelope and on the sender's own connection, and broadcasts nothing;
    the registry is untouched.  When that send is accepted the turn ends
    normally and the loop goes on; when it raises, the exception leaves
    the turn, and with it the loop.  For a frame on which [json.loads]
    raises anything else (RecursionError on text nested too deeply) the
    handler sends nothing to anyone: the generic clause logs the
    exception and the loop goes on. *)
Theorem invalid_json_gets_one_error_reply (w : world) (ws : handle)
    (message : string) :
  let reply := json_dumps error_msg in
  let w' := (on_message ws message w).2 in
  (json_loads message = Raise JSONDecodeError →
   error_msg = JDict [("type", JStr "error"); ("message", JStr "Invalid message format")]
   ∧ new_events w w'
     = [EvLog INFO (ReceivedMessage message);
        EvLog ERROR (InvalidJSONReceived message);
        EvSend ws reply (from_option Raise (Ok tt) (transport w !! ws))]
   ∧ sends (new_events w w') = [(ws, reply)]
   ∧ connected_clients w' = connected_clients w
   ∧ (transport w !! ws = None →
      stays_active ws message w
      ∧ delivered (new_events w w') = [(ws, reply)]
      ∧ ∀ rest closing,
          inbound_loop ws (Recv message :: rest) closing w
          = inbound_loop ws rest closing w')
   ∧ (∀ e, transport w !! ws = Some e →
      (on_message ws message w).1 = Raise e
      ∧ ∀ rest closing,
          inbound_loop ws (Recv message :: rest) closing w = (Raise e, w')))
  ∧ (∀ e, json_loads message = Raise e → e ≠ JSONDecodeError →
     new_events w w'
     = [EvLog INFO (ReceivedMessage message);
        EvLog ERROR (ErrorProcessingMessage e)]
     ∧ sends (new_events w w') = []
     ∧ connected_clients w' = connected_clients w
     ∧ stays_active ws message w
     ∧ ∀ rest closing,
         inbound_loop ws (Recv message :: rest) closing w
         = inbound_loop ws rest closing w').
Proof.
  intros reply w'. split.
  - intros Hloads.
    pose proof (on_message_invalid_json ws message w Hloads) as Hturn.
    cbv zeta in Hturn.
    assert (new_events w w'
            = [EvLog INFO (ReceivedMessage message);
               EvLog ERROR (InvalidJSONReceived message);
               EvSend ws reply (from_option Raise (Ok tt) (transport w !! ws))])
      as Hevs.
    { apply new_events_app. unfold w'. by rewrite Hturn. }
    split_and!.
    + done.
    + done.
    + by rewrite Hevs.
    + unfold w'. by rewrite Hturn.
    + intros Hopen. unfold stays_active. rewrite Hevs. unfold w'.
      rewrite Hturn, Hopen. simpl. split_and!; [done|done|].
      intros rest closing. unfold mbind, M_bind. by rewrite Hturn, Hopen.
    + intros e He. unfold w'. rewrite Hturn, He. simpl. split; [done|].
      intros rest closing. unfold mbind, M_bind. by rewrite Hturn, He.
  - intros e Hloads Hne.
    assert (on_message ws message w
            = (Ok tt, emit (EvLog ERROR (ErrorProcessingMessage e))
                        (emit (EvLog INFO (ReceivedMessage message)) w))) as Hturn.
    { rewrite on_message_run, Hloads. by destruct e. }
    assert (new_events w w'
            = [EvLog INFO (ReceivedMessage message);
               EvLog ERROR (ErrorProcessingMessage e)]) as Hevs.
    { apply new_events_app. unfold w'. rewrite Hturn. simpl. by rewrite <-app_assoc. }
    split_and!.
    + done.
    + by rewrite Hevs.
    + unfold w'. by rewrite Hturn.
    + unfold stays_active. by rewrite Hturn.
    + intros rest closing. simpl. unfold mbind, M_bind, w'. by rewrite Hturn.
Qed.



End Claims.

(** ** Further properties of the broadcast *)

Section Broadcast.
Context `{Library}.

Lemma new_events_fanned_out (message : string) (targets : list handle) (w : world) :
  new_events w (fanned_out message targets w)
  = concat (map (send_events (transport w) message) targets).
Proof. by apply new_events_app. Qed.

Lemma elem_of_fan_out tr message (targets : list handle) (ev : event) :
  ev ∈ concat (map (send_events tr message) targets)
  ↔ ∃ client, client ∈ targets ∧ ev ∈ send_events tr message client.
Proof.
  induction targets as [|c targets IH]; simpl.
  - split; [by intros ?%elem_of_nil|]. by intros (c & ?%elem_of_nil & _).
  - rewrite elem_of_app, IH. split.
    + intros [Hev|(c' & Hin & Hev)].
      * exists c. split; [apply elem_of_cons; by left|done].
      * exists c'. split; [apply elem_of_cons; by right|done].
    + intros (c' & [->|Hin]%elem_of_cons & Hev); [by left|].
      right. by exists c'.
Qed.

(** The events of a broadcast, whatever the registry. *)
Lemma broadcast_events (message : json) (exclude : option handle) (w : world) :
  new_events w (broadcast message exclude w).2
  = if decide (connected_clients w = ∅) then [EvLog WARNING NoClientsForBroadcast]
    else concat (map (send_events (transport w) (json_dumps message))
                     (recipients exclude (connected_clients w))).
Proof.
  case_decide as Hcs.
  - rewrite broadcast_run_empty by done. by apply new_events_app.
  - rewrite broadcast_run by done. apply new_events_fanned_out.
Qed.

(** X1. The warning "No clients connected for broadcast" is logged exactly
    when the registry is empty, and then it is all the broadcast does: no
    send, the registry stays empty, the call returns normally.  A registry
    whose only member is the excluded one gives neither a send nor the
    warning. *)
Theorem no_clients_warning_iff_empty (w : world) (message : json)
    (exclude : option handle) :
  let evs := new_events w (broadcast message exclude w).2 in
  (EvLog WARNING NoClientsForBroadcast ∈ evs ↔ connected_clients w = ∅)
  ∧ (connected_clients w = ∅ →
     evs = [EvLog WARNING NoClientsForBroadcast]
     ∧ connected_clients (broadcast message exclude w).2 = ∅
     ∧ (broadcast message exclude w).1 = Ok tt)
  ∧ (∀ ws, connected_clients w = {[ws]} → exclude = Some ws → evs = []).
Proof.
  intros evs. unfold evs. rewrite broadcast_events. split_and!.
  - case_decide as Hcs.
    + split; [done|]. intros _. apply elem_of_cons. by left.
    + split; [|done]. intros (c & _ & Hev)%elem_of_fan_out.
      unfold send_events in Hev. destruct (transport w !! c) as [[]|];
        repeat (apply elem_of_cons in Hev as [Hev|Hev]; [discriminate|]);
        by apply elem_of_nil in Hev.
  - intros Hcs. rewrite decide_True by done. split_and!; [done| |apply broadcast_ok].
    rewrite broadcast_run_empty by done. done.
  - intros ws Hcs ->. rewrite decide_False by (rewrite Hcs; set_solver).
    assert (recipients (Some ws) (connected_clients w) = []) as ->; [|done].
    apply elem_of_nil_inv. intros c. rewrite elem_of_recipients, Hcs.
    rewrite elem_of_singleton. intros [-> Hne]. by apply Hne.
Qed.

(** X2. A broadcast evicts exactly the recipients whose send raises
    ConnectionClosed.  A connection that is excluded, or whose send raises
    any other exception, stays registered; nobody is added. *)
Theorem broadcast_evicts_only_closed_recipients (w : world) (message : json)
    (exclude : option handle) (h : handle) :
  let w' := (broadcast message exclude w).2 in
  (h ∈ connected_clients w'
   ↔ h ∈ connected_clients w
     ∧ (Some h = exclude ∨ transport w !! h ≠ Some ConnectionClosed))
  ∧ connected_clients w' ⊆ connected_clients w
  ∧ (size (connected_clients w') ≤ size (connected_clients w))%nat
  ∧ transport w' = transport w.
Proof.
  intros w'.
  assert (h ∈ connected_clients w'
          ↔ h ∈ connected_clients w
            ∧ (Some h = exclude ∨ transport w !! h ≠ Some ConnectionClosed)) as Hiff.
  { unfold w'. rewrite broadcast_clients.
    rewrite elem_of_difference, elem_of_list_to_set, elem_of_stale, elem_of_recipients.
    split.
    - intros [Hin Hnot]. split; [done|].
      destruct (decide (Some h = exclude)) as [|Hne]; [by left|]. right.
      intros Hc. apply Hnot. done.
    - intros [Hin [Hex|Hopen]]; (split; [done|]); intros (Hc & _ & Hne);
        [by apply Hne|by apply Hopen]. }
  assert (connected_clients w' ⊆ connected_clients w) as Hsub.
  { unfold w'. rewrite broadcast_clients. set_solver. }
  split_and!; [done|done|by apply subseteq_size|].
  unfold w'. by destruct (broadcast_effect message exclude w) as (evs & -> & _).
Qed.

(** X3. The log records of a broadcast: a WARNING for a recipient found
    closed, an ERROR naming the exception for every other failed send, and
    never the "Broadcast error" record of the loop over the gathered
    results, because send_to_client lets no exception reach gather. *)
Theorem broadcast_log_records (w : world) (message : json)
    (exclude : option handle) :
  let evs := new_events w (broadcast message exclude w).2 in
  let targets := recipients exclude (connected_clients w) in
  (∀ e, EvLog ERROR (BroadcastError e) ∉ evs)
  ∧ (EvLog WARNING SendToClosedConnection ∈ evs
     ↔ ∃ client, client ∈ targets ∧ transport w !! client = Some ConnectionClosed)
  ∧ (∀ e, EvLog ERROR (ErrorSendingToClient e) ∈ evs
          ↔ e ≠ ConnectionClosed
            ∧ ∃ client, client ∈ targets ∧ transport w !! client = Some e)
  ∧ ((∀ client, client ∈ targets → transport w !! client = None) →
     connected_clients w ≠ ∅ → logs evs = []).
Proof.
  intros evs targets. unfold evs. rewrite broadcast_events.
  case_decide as Hcs.
  - assert (targets = []) as Ht.
    { unfold targets, recipients. by rewrite Hcs, elements_empty. }
    rewrite Ht. split_and!.
    + intros e Hev. apply elem_of_cons in Hev as [Hev|Hev]; [discriminate|].
      by apply elem_of_nil in Hev.
    + split.
      * intros Hev. apply elem_of_cons in Hev as [Hev|Hev]; [discriminate|].
        by apply elem_of_nil in Hev.
      * by intros (c & ?%elem_of_nil & _).
    + intros e. split.
      * intros Hev. apply elem_of_cons in Hev as [Hev|Hev]; [discriminate|].
        by apply elem_of_nil in Hev.
      * by intros (_ & c & ?%elem_of_nil & _).
    + done.
  - fold targets. split_and!.
    + intros e (c & _ & Hev)%elem_of_fan_out.
      unfold send_events in Hev. destruct (transport w !! c) as [[]|];
        repeat (apply elem_of_cons in Hev as [Hev|Hev]; [discriminate|]);
        by apply elem_of_nil in Hev.
    + rewrite elem_of_fan_out. split.
      * intros (c & Hin & Hev). exists c. split; [done|].
        unfold send_events in Hev. destruct (transport w !! c) as [[]|]; try done;
          repeat (apply elem_of_cons in Hev as [Hev|Hev]; [discriminate|]);
          by apply elem_of_nil in Hev.
      * intros (c & Hin & Hc). exists c. split; [done|].
        unfold send_events. rewrite Hc. apply elem_of_cons. right.
        apply elem_of_cons. by left.
    + intros e. rewrite elem_of_fan_out. split.
      * intros (c & Hin & Hev).
        unfold send_events in Hev. destruct (transport w !! c) as [e'|] eqn:Hc.
        -- destruct e';
             repeat (apply elem_of_cons in Hev as [Hev|Hev];
                     [try discriminate; injection Hev as ->|]);
             try (by apply elem_of_nil in Hev);
             (split; [done|by exists c]).
        -- apply elem_of_cons in Hev as [Hev|Hev]; [discriminate|].
           by apply elem_of_nil in Hev.
      * intros (Hne & c & Hin & Hc). exists c. split; [done|].
        unfold send_events. rewrite Hc.
        destruct e; try done; apply elem_of_cons; right; apply elem_of_cons; by left.
    + intros Hopen _. clear Hcs.
      assert (∀ c, c ∈ targets → transport w !! c = None) as Ho by done.
      clear Hopen. induction targets as [|c l IH]; [done|]. simpl.
      unfold send_events at 1. rewrite (Ho c) by (apply elem_of_cons; by left).
      simpl. apply IH. intros c' Hc'. apply Ho. apply elem_of_cons. by right.
Qed.

End Broadcast.

(** ** Who receives what *)

Section Inboxes.
Context `{Library}.

Lemma delivered_send_events tr message (client : handle) :
  delivered (send_events tr message client)
  = if decide (tr !! client = None) then [(client, message)] else [].
Proof.
  unfold send_events. destruct (tr !! client) as [e|] eqn:Htr.
  - rewrite decide_False by done. by destruct e.
  - by rewrite decide_True by done.
Qed.

Lemma delivered_fan_out_open tr message (targets : list handle) :
  delivered (concat (map (send_events tr message) targets))
  = map (λ client, (client, message)) (filter (λ client, tr !! client = None) targets).
Proof.
  induction targets as [|c targets IH]; simpl; [done|].
  rewrite delivered_app, delivered_send_events, IH.
  case_decide as Hc.
  - by rewrite filter_cons_True by done.
  - by rewrite filter_cons_False by done.
Qed.


Lemma payloads_for_absent (h : handle) (payload : string) (targets : list handle) :
  h ∉ targets → payloads_for h (map (λ client, (client, payload)) targets) = [].
Proof.
  induction targets as [|c targets IH]; simpl; [done|].
  intros Hout. rewrite decide_False.
  - apply IH. intros Hin. apply Hout. apply elem_of_cons. by right.
  - intros ->. apply Hout. apply elem_of_cons. by left.
Qed.

Lemma payloads_for_present (h : handle) (payload : string) (targets : list handle) :
  NoDup targets → h ∈ targets →
  payloads_for h (map (λ client, (client, payload)) targets) = [payload].
Proof.
  induction targets as [|c targets IH]; simpl.
  - by intros _ ?%elem_of_nil.
  - intros [Hc Hnd]%NoDup_cons Hin. case_decide as Heq.
    + subst c. by rewrite payloads_for_absent.
    + apply elem_of_cons in Hin as [Hin|Hin]; [congruence|]. by apply IH.
Qed.

Lemma broadcast_trace (message : json) (exclude : option handle) (w : world) :
  trace (broadcast message exclude w).2
  = trace w ++ new_events w (broadcast message exclude w).2.
Proof.
  destruct (broadcast_effect message exclude w) as (evs & -> & _). simpl.
  by rewrite (new_events_app _ _ evs).
Qed.

Lemma broadcast_delivered (message : json) (exclude : option handle) (w : world) :
  delivered (new_events w (broadcast message exclude w).2)
  = map (λ client, (client, json_dumps message))
        (filter (λ client, transport w !! client = None)
                (recipients exclude (connected_clients w))).
Proof.
  rewrite broadcast_events. case_decide as Hcs.
  - unfold recipients. by rewrite Hcs, elements_empty.
  - apply delivered_fan_out_open.
Qed.


(** X5. A registration whose welcome is accepted calls send first for the
    welcome, on the new connection, and then once for each other
    registered connection with the join announcement; both carry the
    number of registered connections with the newcomer counted.  The
    newcomer receives the welcome and not its own announcement; a first
    client's registration sends the welcome and nothing else. *)
Theorem register_client_sends (w : world) (ws : handle) :
  transport w !! ws = None →
  let cs := connected_clients w in
  let client_count := size (set_add ws cs) in
  let welcome := json_dumps (welcome_msg client_count (isoformat (clock w))) in
  let joined := json_dumps (joined_msg client_count (isoformat (S (clock w)))) in
  let evs := new_events w (register_client ws w).2 in
  sends evs
  = (ws, welcome) :: map (λ client, (client, joined)) (recipients (Some ws) (set_add ws cs))
  ∧ inbox ws evs = [welcome]
  ∧ (∀ client, client ∈ cs → client ≠ ws → transport w !! client = None →
               inbox client evs = [joined])
  ∧ (ws ∉ cs → client_count = S (size cs))
  ∧ (cs ⊆ {[ws]} → sends evs = [(ws, welcome)]).
Proof.
  intros Hopen cs client_count welcome joined evs.
  pose proof (register_client_welcomed ws w Hopen) as Hreg. cbv zeta in Hreg.
  fold cs client_count in Hreg.
  set (w1 := tick (emit (EvSend ws welcome (Ok tt))
               (tick (emit (EvLog INFO (ClientConnected client_count))
                        (set_clients (set_add ws) w))))) in *.
  set (J := joined_msg client_count (isoformat (S (clock w)))) in *.
  assert (evs = [EvLog INFO (ClientConnected client_count); EvSend ws welcome (Ok tt)]
                ++ new_events w1 (broadcast J (Some ws) w1).2) as Hevs.
  { unfold evs. rewrite Hreg. apply new_events_app. rewrite broadcast_trace.
    simpl. by rewrite <-!app_assoc. }
  assert (sends evs
          = (ws, welcome)
              :: map (λ client, (client, joined)) (recipients (Some ws) (set_add ws cs)))
    as Hsends.
  { rewrite Hevs, sends_app, broadcast_sends. done. }
  assert (ws ∉ recipients (Some ws) (set_add ws cs)) as Hself.
  { rewrite elem_of_recipients. intros [_ Hne]. by apply Hne. }
  split_and!.
  - done.
  - unfold inbox. rewrite Hevs, delivered_app, broadcast_delivered. simpl.
    rewrite decide_True by done. f_equal. apply payloads_for_absent.
    rewrite list_elem_of_filter. tauto.
  - intros c Hin Hne Hc. unfold inbox.
    rewrite Hevs, delivered_app, broadcast_delivered. simpl.
    rewrite decide_False by done. apply payloads_for_present.
    + apply NoDup_filter, NoDup_recipients.
    + apply list_elem_of_filter. split; [done|]. apply elem_of_recipients.
      split; [unfold set_add; set_solver|congruence].
  - intros Hnew. unfold client_count, set_add.
    rewrite size_union by set_solver. by rewrite size_singleton.
  - intros Honly. rewrite Hsends.
    assert (recipients (Some ws) (set_add ws cs) = []) as ->; [|done].
    apply elem_of_nil_inv. intros c. rewrite elem_of_recipients.
    unfold set_add. intros [Hin Hne]. apply Hne. f_equal. set_solver.
Qed.

(** X6. unregister_client returns normally and announces the departure to
    every connection left in the registry, with the number of those: one
    less than before when the handle was registered, and the same number
    when it was not (a handle that an earlier broadcast has evicted is not
    counted off twice).  The departed connection is sent nothing. *)
Theorem unregister_client_announces_count (w : world) (ws : handle) :
  let cs := connected_clients w in
  let client_count := size (set_discard ws cs) in
  let farewell := json_dumps (left_msg client_count (isoformat (clock w))) in
  let w' := (unregister_client ws w).2 in
  let evs := new_events w w' in
  (unregister_client ws w).1 = Ok tt
  ∧ sends evs = map (λ client, (client, farewell)) (elements (set_discard ws cs))
  ∧ logs evs !! 0 = Some (INFO, ClientDisconnected client_count)
  ∧ (ws ∈ cs → client_count = size cs - 1)
  ∧ (ws ∉ cs → client_count = size cs)
  ∧ (ws ∉ connected_clients w')
  ∧ (ws ∉ sent_to evs).
Proof.
  intros cs client_count farewell w' evs.
  pose proof (unregister_client_run ws w) as Hrun. cbv zeta in Hrun.
  fold cs client_count in Hrun.
  set (w1 := tick (emit (EvLog INFO (ClientDisconnected client_count))
                     (set_clients (set_discard ws) w))) in *.
  set (L := left_msg client_count (isoformat (clock w))) in *.
  assert (evs = [EvLog INFO (ClientDisconnected client_count)]
                ++ new_events w1 (broadcast L None w1).2) as Hevs.
  { unfold evs, w'. rewrite Hrun. apply new_events_app. rewrite broadcast_trace.
    simpl. by rewrite <-!app_assoc. }
  assert (sends evs = map (λ client, (client, farewell)) (elements (set_discard ws cs)))
    as Hsends.
  { rewrite Hevs, sends_app, broadcast_sends, recipients_none. done. }
  split_and!.
  - rewrite Hrun. apply broadcast_ok.
  - done.
  - by rewrite Hevs.
  - intros Hin. unfold client_count, set_discard.
    rewrite size_difference by set_solver. by rewrite size_singleton.
  - intros Hout. unfold client_count, set_discard. f_equal. set_solver.
  - unfold w'. rewrite Hrun, broadcast_clients. simpl. unfold set_discard. set_solver.
  - unfold sent_to. rewrite Hsends. intros Hin.
    apply list_elem_of_fmap in Hin as ([c p] & -> & Hin).
    apply list_elem_of_fmap in Hin as (c' & [= -> _] & Hin).
    apply elem_of_elements in Hin. unfold set_discard in Hin. set_solver.
Qed.

(** X7. In runs where no task is cancelled (every exception derives from
    Exception), an exception leaves handle_client exactly when the welcome
    send raises, and it is that exception: whatever the loop, the
    iteration over the connection or a later send raises is handled
    inside.  The handle is still registered when the handler has finished
    exactly in that case. *)
Theorem handler_outcome (w : world) (ws : handle) (path : string)
    (frames : list inbound) (closing : result unit) :
  (∀ e, (handle_client ws path frames closing w).1 = Raise e
        ↔ transport w !! ws = Some e)
  ∧ ((handle_client ws path frames closing w).1 = Ok tt ↔ transport w !! ws = None)
  ∧ (ws ∈ connected_clients (handle_client ws path frames closing w).2
     ↔ transport w !! ws ≠ None).
Proof.
  destruct (transport w !! ws) as [e|] eqn:Htr.
  - unfold handle_client, register_client, mbind, M_bind, clients_add, clients,
      log, datetime_now, websocket_send. simpl. rewrite Htr. simpl.
    split_and!.
    + intros e'. split; congruence.
    + split; discriminate.
    + split; [done|]. intros _. unfold set_add. set_solver.
  - assert ((register_client ws w).1 = Ok tt) as Hreg.
    { rewrite register_client_welcomed by done. apply broadcast_ok. }
    rewrite handle_client_run by done.
    rewrite unregister_client_run. cbv zeta. rewrite broadcast_ok. split_and!.
    + intros e'. split; discriminate.
    + done.
    + rewrite broadcast_clients. simpl. unfold set_discard. split; [|done].
      set_solver.
Qed.

End Inboxes.

(** ** Whole sessions *)

Section Sessions.
Context `{Library}.

Lemma evict_all_closed tr (cs : gset nat) :
  cs ∖ list_to_set (stale tr (recipients None cs)) = open_clients tr cs.
Proof.
  apply set_eq. intros c. unfold open_clients.
  rewrite elem_of_difference, elem_of_list_to_set, elem_of_stale, elem_of_recipients,
    elem_of_filter.
  split.
  - intros [Hin Hnot]. split; [|done]. intros Hc. by apply Hnot.
  - intros [Hopen Hin]. split; [done|]. by intros [Hc _].
Qed.

Lemma open_clients_settled (w : world) :
  settled w → open_clients (transport w) (connected_clients w) = connected_clients w.
Proof.
  intros Hs. apply set_eq. intros c. unfold open_clients. rewrite elem_of_filter.
  split; [by intros [_ ?]|]. intros Hin. split; [by apply Hs|done].
Qed.

Lemma broadcast_clock (message : json) (exclude : option handle) (w : world) :
  clock (broadcast message exclude w).2 = clock w.
Proof. by destruct (broadcast_effect message exclude w) as (evs & -> & _). Qed.

Lemma broadcast_transport (message : json) (exclude : option handle) (w : world) :
  transport (broadcast message exclude w).2 = transport w.
Proof. by destruct (broadcast_effect message exclude w) as (evs & -> & _). Qed.

(** The world after one turn of the loop, field by field. *)
Lemma on_message_fields (ws : handle) (message : string) (w : world) :
  let w' := (on_message ws message w).2 in
  transport w' = transport w
  ∧ clock w' = clock w + turn_ticks message
  ∧ connected_clients w'
    = match json_loads message with
      | Ok (JDict _) => open_clients (transport w) (connected_clients w)
      | _ => connected_clients w
      end.
Proof.
  intros w'. unfold w', turn_ticks. rewrite on_message_run. cbv zeta.
  destruct (json_loads message) as [v|e].
  - destruct v; try (simpl; split_and!; [done|lia|done]).
    rewrite broadcast_transport, broadcast_clock, broadcast_clients. simpl.
    split_and!; [done|lia|apply evict_all_closed].
  - destruct e; try (simpl; split_and!; [done|lia|done]).
    unfold websocket_send. simpl.
    destruct (transport w !! ws); simpl; split_and!; done || lia.
Qed.

(** X8. One turn of the loop never adds a member to the registry and
    never drops one whose transport is not closed: a frame carrying an
    object evicts exactly the closed members, any other frame (an array,
    no JSON at all) leaves the registry as it is. *)
Theorem turn_keeps_open_connections (w : world) (ws : handle) (message : string) :
  let w' := (on_message ws message w).2 in
  (∀ items, json_loads message = Ok (JDict items) →
     connected_clients w' = open_clients (transport w) (connected_clients w))
  ∧ ((∀ items, json_loads message ≠ Ok (JDict items)) →
     connected_clients w' = connected_clients w)
  ∧ connected_clients w' ⊆ connected_clients w
  ∧ open_clients (transport w) (connected_clients w) ⊆ connected_clients w'.
Proof.
  intros w'. destruct (on_message_fields ws message w) as (_ & _ & Hcs).
  fold w' in Hcs. rewrite Hcs. unfold open_clients.
  destruct (json_loads message) as [v|e]; [destruct v|];
    (split_and!;
     [intros its Hits; try discriminate; done
     |intros Hnot; try done; by edestruct Hnot
     |set_solver
     |set_solver]).
Qed.

(** Composing runs. *)

Lemma extends_by_refl (w : world) : extends_by w w [] 0.
Proof.
  split_and!; [done|lia|]. exists []. by rewrite app_nil_r.
Qed.

Lemma extends_by_trans (w w1 w2 : world) ss1 ss2 k1 k2 :
  extends_by w w1 ss1 k1 → extends_by w1 w2 ss2 k2 →
  extends_by w w2 (ss1 ++ ss2) (k1 + k2).
Proof.
  intros (Htr1 & Hc1 & evs1 & Ht1 & Hs1 & Hd1) (Htr2 & Hc2 & evs2 & Ht2 & Hs2 & Hd2).
  split_and!; [congruence|lia|]. exists (evs1 ++ evs2). split_and!.
  - by rewrite Ht2, Ht1, app_assoc.
  - by rewrite sends_app, Hs1, Hs2.
  - by rewrite delivered_app, Hd1, Hd2, filter_app, Htr1.
Qed.

Lemma extends_by_eq (w w' : world) ss ss' k k' :
  ss = ss' → k = k' → extends_by w w' ss k → extends_by w w' ss' k'.
Proof. by intros -> ->. Qed.

Lemma extends_by_log (lvl : level) (msg : log_msg) (w : world) :
  extends_by w (emit (EvLog lvl msg) w) [] 0.
Proof. split_and!; [done|simpl; lia|]. by exists [EvLog lvl msg]. Qed.

Lemma extends_by_tick (w : world) : extends_by w (tick w) [] 1.
Proof.
  split_and!; [done|simpl; lia|]. exists []. by rewrite app_nil_r.
Qed.

Lemma extends_by_set_clients (f : gset nat → gset nat) (w : world) :
  extends_by w (set_clients f w) [] 0.
Proof.
  split_and!; [done|simpl; lia|]. exists []. by rewrite app_nil_r.
Qed.

Lemma extends_by_send_open (ws : handle) (payload : string) (w : world) :
  transport w !! ws = None →
  extends_by w (emit (EvSend ws payload (Ok tt)) w) [(ws, payload)] 0.
Proof.
  intros Hopen. split_and!; [done|simpl; lia|].
  exists [EvSend ws payload (Ok tt)]. split_and!; [done|done|].
  simpl. by rewrite filter_cons_True, filter_nil by done.
Qed.

Lemma filter_fan_out (tr : gmap nat exn) (message : string) (targets : list handle) :
  filter (λ p : nat * string, tr !! p.1 = None)
         (map (λ client, (client, message)) targets)
  = map (λ client, (client, message)) (filter (λ client, tr !! client = None) targets).
Proof.
  induction targets as [|c targets IH]; simpl; [done|].
  destruct (decide (tr !! c = None)) as [Hc|Hc].
  - rewrite !filter_cons_True by done. simpl. by rewrite IH.
  - by rewrite !filter_cons_False by done.
Qed.

Lemma broadcast_extends (message : json) (exclude : option handle) (w : world) :
  extends_by w (broadcast message exclude w).2
    (map (λ client, (client, json_dumps message))
         (recipients exclude (connected_clients w))) 0.
Proof.
  split_and!; [apply broadcast_transport|rewrite broadcast_clock; lia|].
  exists (new_events w (broadcast message exclude w).2). split_and!.
  - apply broadcast_trace.
  - apply broadcast_sends.
  - by rewrite broadcast_delivered, filter_fan_out.
Qed.


(** One turn on a connection whose own transport accepts frames. *)
Lemma on_message_extends (ws : handle) (message : string) (w : world) :
  transport w !! ws = None →
  (on_message ws message w).1 = Ok tt
  ∧ extends_by w (on_message ws message w).2
      (turn_sends ws (elements (connected_clients w)) (clock w) message)
      (turn_ticks message).
Proof.
  intros Hopen. rewrite on_message_run. cbv zeta. unfold turn_sends, turn_ticks.
  set (w1 := emit (EvLog INFO (ReceivedMessage message)) w).
  assert (extends_by w w1 [] 0) as H1 by apply extends_by_log.
  destruct (json_loads message) as [v|e].
  - destruct v;
      try (split; [done|];
           apply (extends_by_eq _ _ ([] ++ []) _ (0 + 0)); [done..|];
           eapply extends_by_trans; [exact H1|apply extends_by_log]).
    split; [apply broadcast_ok|].
    apply (extends_by_eq _ _
             (([] ++ []) ++ map (λ client, (client, chat_payload items (clock w)))
                                (recipients None (connected_clients (tick w1))))
             _ ((0 + 1) + 0)); [by rewrite recipients_none|done|].
    eapply extends_by_trans; [|apply broadcast_extends].
    eapply extends_by_trans; [exact H1|apply extends_by_tick].
  - destruct e;
      try (split; [done|];
           apply (extends_by_eq _ _ ([] ++ []) _ (0 + 0)); [done..|];
           eapply extends_by_trans; [exact H1|apply extends_by_log]).
    unfold websocket_send. simpl. rewrite Hopen. split; [done|].
    apply (extends_by_eq _ _ (([] ++ []) ++ [(ws, json_dumps error_msg)]) _ ((0 + 0) + 0));
      [done..|].
    eapply extends_by_trans; [|by apply extends_by_send_open].
    eapply extends_by_trans; [exact H1|apply extends_by_log].
Qed.

Lemma settled_same (w w' : world) :
  connected_clients w' = connected_clients w → transport w' = transport w →
  settled w → settled w'.
Proof. unfold settled. intros -> ->. done. Qed.

(** The loop of a connection whose transport accepts frames, in a registry
    without closed members and with no other task in between: it runs to
    the end of the frames and leaves the registry as it is. *)
Lemma inbound_loop_settled (ws : handle) (frames : list inbound)
    (closing : result unit) (w : world) :
  settled w → transport w !! ws = None → only_frames frames →
  let w' := (inbound_loop ws frames closing w).2 in
  (inbound_loop ws frames closing w).1 = closing
  ∧ connected_clients w' = connected_clients w
  ∧ extends_by w w'
      (loop_sends ws (elements (connected_clients w)) (clock w) frames)
      (objects frames).
Proof.
  revert w. induction frames as [|[message|others] rest IH]; intros w Hs Hopen Hfr.
  - simpl. split_and!; [done|done|apply extends_by_refl].
  - assert (only_frames rest) as Hrest.
    { intros o Hin. apply (Hfr o). apply elem_of_cons. by right. }
    destruct (on_message_extends ws message w Hopen) as [Hok Hext].
    destruct (on_message_fields ws message w) as (Htr & Hclk & Hcs).
    assert (connected_clients (on_message ws message w).2 = connected_clients w) as Hcs'.
    { rewrite Hcs. destruct (json_loads message) as [[]|]; try done.
      by apply open_clients_settled. }
    simpl. unfold mbind, M_bind.
    destruct (on_message ws message w) as [r w1]. simpl in *. subst r.
    destruct (IH w1) as (Hr & Hcs1 & Hext1);
      [by apply (settled_same w)|by rewrite Htr|done|].
    split_and!; [done|congruence|].
    rewrite Hcs', Hclk in Hext1. by eapply extends_by_trans.
  - exfalso. apply (Hfr others). apply elem_of_cons. by left.
Qed.

(** Registration and departure as runs. *)

Lemma register_client_extends (ws : handle) (w : world) :
  transport w !! ws = None →
  let cs := connected_clients w in
  let client_count := size (set_add ws cs) in
  let w' := (register_client ws w).2 in
  (register_client ws w).1 = Ok tt
  ∧ connected_clients w' = open_clients (transport w) (set_add ws cs)
  ∧ extends_by w w'
      ((ws, json_dumps (welcome_msg client_count (isoformat (clock w))))
         :: map (λ client,
                   (client,
                    json_dumps (joined_msg client_count (isoformat (S (clock w))))))
                (recipients (Some ws) (set_add ws cs)))
      2.
Proof.
  intros Hopen cs client_count w'. unfold w'.
  rewrite register_client_welcomed by done. cbv zeta. fold cs client_count.
  set (welcome := json_dumps (welcome_msg client_count (isoformat (clock w)))).
  set (w1 := tick (emit (EvSend ws welcome (Ok tt))
               (tick (emit (EvLog INFO (ClientConnected client_count))
                        (set_clients (set_add ws) w))))).
  split_and!.
  - apply broadcast_ok.
  - rewrite broadcast_clients. simpl. fold cs. apply set_eq. intros c.
    unfold open_clients.
    rewrite elem_of_difference, elem_of_list_to_set, elem_of_stale, elem_of_recipients,
      elem_of_filter.
    split.
    + intros [Hin Hnot]. split; [|done]. intros Hc. apply Hnot.
      split_and!; [done|done|]. intros [= ->]. congruence.
    + intros [Hc Hin]. split; [done|]. by intros [Hc' _].
  - assert (extends_by w w1 [(ws, welcome)] 2) as H1.
    { split_and!; [done|simpl; lia|].
      exists [EvLog INFO (ClientConnected client_count); EvSend ws welcome (Ok tt)].
      split_and!; [simpl; by rewrite <-app_assoc|done|].
      simpl. by rewrite filter_cons_True, filter_nil by done. }
    apply (extends_by_eq _ _
             ([(ws, welcome)]
                ++ map (λ client,
                          (client,
                           json_dumps (joined_msg client_count
                                         (isoformat (S (clock w))))))
                       (recipients (Some ws) (connected_clients w1)))
             _ (2 + 0)); [done|done|].
    eapply extends_by_trans; [exact H1|apply broadcast_extends].
Qed.

Lemma unregister_client_extends (ws : handle) (w : world) :
  let cs := connected_clients w in
  let client_count := size (set_discard ws cs) in
  let w' := (unregister_client ws w).2 in
  (unregister_client ws w).1 = Ok tt
  ∧ connected_clients w' = open_clients (transport w) (set_discard ws cs)
  ∧ extends_by w w'
      (map (λ client,
              (client, json_dumps (left_msg client_count (isoformat (clock w)))))
           (elements (set_discard ws cs)))
      1.
Proof.
  intros cs client_count w'. unfold w'. rewrite unregister_client_run. cbv zeta.
  fold cs client_count.
  set (w1 := tick (emit (EvLog INFO (ClientDisconnected client_count))
                     (set_clients (set_discard ws) w))).
  split_and!.
  - apply broadcast_ok.
  - rewrite broadcast_clients. simpl. apply evict_all_closed.
  - assert (extends_by w w1 [] 1) as H1.
    { split_and!; [done|simpl; lia|].
      by exists [EvLog INFO (ClientDisconnected client_count)]. }
    apply (extends_by_eq _ _
             ([] ++ map (λ client,
                           (client,
                            json_dumps (left_msg client_count (isoformat (clock w)))))
                        (recipients None (connected_clients w1)))
             _ (1 + 0)); [by rewrite recipients_none|done|].
    eapply extends_by_trans; [exact H1|apply broadcast_extends].
Qed.

(** How the iteration closes matters to the loop only at its end. *)
Lemma inbound_loop_closing (ws : handle) (frames : list inbound)
    (closing : result unit) (w : world) :
  inbound_loop ws frames closing w
  = (match (inbound_loop ws frames (Ok tt) w).1 with
     | Ok _ => closing
     | Raise e => Raise e
     end,
     (inbound_loop ws frames (Ok tt) w).2).
Proof.
  revert w. induction frames as [|[message|others] rest IH]; intros w; simpl.
  - done.
  - unfold mbind, M_bind. destruct (on_message ws message w) as [[[]|e] w1]; [|done].
    apply IH.
  - unfold mbind, M_bind. apply IH.
Qed.

(** The outer [try] adds at most one log record to what the loop left. *)
Lemma session_world (ws : handle) (frames : list inbound) (closing : result unit)
    (w : world) :
  let w0 := (inbound_loop ws frames (Ok tt) w).2 in
  (session ws frames closing w).2 = w0
  ∨ ∃ lvl msg, (session ws frames closing w).2 = emit (EvLog lvl msg) w0.
Proof.
  intros w0. unfold session, try_except. rewrite inbound_loop_closing. fold w0.
  destruct (inbound_loop ws frames (Ok tt) w).1 as [[]|e].
  - destruct closing as [[]|e]; [by left|]. right.
    destruct e; by eexists _, _.
  - right. destruct e; by eexists _, _.
Qed.

(** X9. The record "Client connection closed normally" is written when
    the iteration over the connection raises ConnectionClosed; an
    iteration that just ends writes no record, and any other exception is
    recorded as an error. *)
Theorem closing_log_record (w : world) (ws : handle) (frames : list inbound) :
  (inbound_loop ws frames (Ok tt) w).1 = Ok tt →
  let w0 := (inbound_loop ws frames (Ok tt) w).2 in
  session ws frames (Ok tt) w = (Ok tt, w0)
  ∧ session ws frames (Raise ConnectionClosed) w
    = (Ok tt, emit (EvLog INFO ConnectionClosedNormally) w0)
  ∧ (∀ e, e ≠ ConnectionClosed →
          session ws frames (Raise e) w
          = (Ok tt, emit (EvLog ERROR (ErrorInClientHandler e)) w0)).
Proof.
  intros Hend w0. unfold session, try_except. split_and!.
  - unfold w0. destruct (inbound_loop ws frames (Ok tt) w) as [r wx].
    simpl in Hend. by subst r.
  - rewrite (inbound_loop_closing ws frames (Raise ConnectionClosed)).
    by rewrite Hend.
  - intros e Hne. rewrite (inbound_loop_closing ws frames (Raise e)).
    rewrite Hend. by destruct e.
Qed.

Lemma unregister_client_observables (ws : handle) (w : world) :
  let cs := connected_clients w in
  let ss := map (λ client,
                   (client,
                    json_dumps (left_msg (size (set_discard ws cs))
                                         (isoformat (clock w)))))
                (elements (set_discard ws cs)) in
  let w' := (unregister_client ws w).2 in
  connected_clients w' = open_clients (transport w) (set_discard ws cs)
  ∧ clock w' = S (clock w)
  ∧ sends (trace w') = sends (trace w) ++ ss
  ∧ delivered (trace w')
    = delivered (trace w) ++ filter (λ p, transport w !! p.1 = None) ss.
Proof.
  intros cs ss w'.
  destruct (unregister_client_extends ws w)
    as (_ & Hcs & _ & Hclk & evs & Ht & Hs & Hd).
  fold cs w' in Hcs, Hclk, Ht. fold cs ss in Hs, Hd.
  split_and!; [done|lia| |].
  - by rewrite Ht, sends_app, Hs.
  - by rewrite Ht, delivered_app, Hd.
Qed.

(** X10. How the connection closes (the iteration ends, or raises
    ConnectionClosed or anything else) changes neither the outcome of
    handle_client nor the registry it leaves, nor any send: every member
    is sent the same frames, in the same order. *)
Theorem closing_only_changes_the_log (w : world) (ws : handle) (path : string)
    (frames : list inbound) (closing closing' : result unit) :
  let r := handle_client ws path frames closing w in
  let r' := handle_client ws path frames closing' w in
  r.1 = r'.1
  ∧ connected_clients r.2 = connected_clients r'.2
  ∧ sends (trace r.2) = sends (trace r'.2)
  ∧ delivered (trace r.2) = delivered (trace r'.2)
  ∧ clock r.2 = clock r'.2.
Proof.
  intros r r'. destruct (transport w !! ws) as [e|] eqn:Htr.
  - assert (r = r') as ->; [|done].
    unfold r, r', handle_client, register_client, mbind, M_bind, clients_add, clients,
      log, datetime_now, websocket_send. simpl. by rewrite Htr.
  - destruct (register_client_extends ws w Htr) as (Hreg & _).
    unfold r, r'. rewrite !handle_client_run by done.
    set (w1 := (register_client ws w).2).
    set (w0 := (inbound_loop ws frames (Ok tt) w1).2).
    assert (∀ c,
              (unregister_client ws (session ws frames c w1).2).1 = Ok tt
              ∧ connected_clients (unregister_client ws (session ws frames c w1).2).2
                = connected_clients (unregister_client ws w0).2
              ∧ sends (trace (unregister_client ws (session ws frames c w1).2).2)
                = sends (trace (unregister_client ws w0).2)
              ∧ delivered (trace (unregister_client ws (session ws frames c w1).2).2)
                = delivered (trace (unregister_client ws w0).2)
              ∧ clock (unregister_client ws (session ws frames c w1).2).2
                = clock (unregister_client ws w0).2) as Hsame.
    { intros c.
      split; [by destruct (unregister_client_extends ws (session ws frames c w1).2)|].
      destruct (session_world ws frames c w1) as [->|(lvl & msg & ->)]; [done|].
      fold w0.
      destruct (unregister_client_observables ws (emit (EvLog lvl msg) w0))
        as (Hc1 & Hk1 & Hs1 & Hd1).
      destruct (unregister_client_observables ws w0) as (Hc2 & Hk2 & Hs2 & Hd2).
      rewrite Hc1, Hk1, Hs1, Hd1, Hc2, Hk2, Hs2, Hd2. simpl.
      rewrite sends_app, delivered_app. simpl. by rewrite !app_nil_r. }
    destruct (Hsame closing) as (-> & -> & -> & -> & ->).
    destruct (Hsame closing') as (-> & -> & -> & -> & ->). done.
Qed.

(** A session from accept to departure, with no other task in between and
    the connection's own transport accepting frames throughout. *)
Lemma session_run (ws : handle) (path : string) (frames : list inbound)
    (closing : result unit) (w : world) :
  transport w !! ws = None → only_frames frames →
  let cs := connected_clients w in
  let n := clock w in
  let client_count := size (set_add ws cs) in
  let members := open_clients (transport w) (set_add ws cs) in
  let w' := (handle_client ws path frames closing w).2 in
  connected_clients w' = open_clients (transport w) (cs ∖ {[ws]})
  ∧ extends_by w w'
      (((ws, json_dumps (welcome_msg client_count (isoformat n)))
          :: map (λ client,
                    (client, json_dumps (joined_msg client_count (isoformat (S n)))))
                 (recipients (Some ws) (set_add ws cs)))
       ++ loop_sends ws (elements members) (n + 2) frames
       ++ map (λ client,
                 (client,
                  json_dumps (left_msg (size (members ∖ {[ws]}))
                                       (isoformat (n + 2 + objects frames)))))
              (elements (members ∖ {[ws]})))
      (3 + objects frames).
Proof.
  intros Hopen Hfr cs n client_count members w'.
  destruct (register_client_extends ws w Hopen) as (Hreg & Hcs1 & Hext1).
  fold cs client_count members in Hcs1, Hext1.
  unfold w'. rewrite handle_client_run by done.
  set (w1 := (register_client ws w).2) in *.
  assert (transport w1 = transport w) as Htr1 by apply Hext1.
  assert (clock w1 = n + 2) as Hclk1 by apply Hext1.
  assert (settled w1) as Hs1.
  { intros c. rewrite Hcs1, Htr1. unfold members, open_clients.
    rewrite elem_of_filter. by intros [? _]. }
  assert (transport w1 !! ws = None) as Hopen1 by by rewrite Htr1.
  destruct (inbound_loop_settled ws frames (Ok tt) w1 Hs1 Hopen1 Hfr)
    as (_ & Hcs0 & Hext0).
  set (w0 := (inbound_loop ws frames (Ok tt) w1).2) in *.
  rewrite Hcs1, Hclk1 in Hext0.
  assert (connected_clients (session ws frames closing w1).2 = members
          ∧ extends_by w1 (session ws frames closing w1).2
              (loop_sends ws (elements members) (n + 2) frames) (objects frames))
    as [Hcs2 Hext2].
  { destruct (session_world ws frames closing w1) as [->|(lvl & msg & ->)];
      fold w0; [split; [congruence|done]|].
    split; [simpl; congruence|].
    apply (extends_by_eq _ _ (loop_sends ws (elements members) (n + 2) frames ++ [])
             _ (objects frames + 0)); [by rewrite app_nil_r|lia|].
    eapply extends_by_trans; [exact Hext0|apply extends_by_log]. }
  set (w2 := (session ws frames closing w1).2) in *.
  assert (transport w2 = transport w) as Htr2.
  { destruct Hext2 as (-> & _). done. }
  assert (clock w2 = n + 2 + objects frames) as Hclk2.
  { destruct Hext2 as (_ & -> & _). lia. }
  destruct (unregister_client_extends ws w2) as (_ & Hcs3 & Hext3).
  rewrite Hcs2, Htr2 in Hcs3. rewrite Hcs2, Hclk2 in Hext3. unfold set_discard in *.
  split.
  - rewrite Hcs3. apply set_eq. intros c. unfold members, open_clients, set_add.
    rewrite !elem_of_filter, !elem_of_difference, elem_of_filter, elem_of_union.
    rewrite elem_of_singleton. tauto.
  - pose proof (extends_by_trans _ _ _ _ _ _ _
                  (extends_by_trans _ _ _ _ _ _ _ Hext1 Hext2) Hext3) as Hall.
    eapply extends_by_eq; [| |exact Hall]; [by rewrite <-app_assoc|fold n; lia].
Qed.

(** X11. A session leaves the registry as it found it, apart from its own
    handle and the members whose transport was closed: those are evicted
    by the session's broadcasts, nobody else is, and nobody is added.  In
    a registry without closed members a whole session is a round trip. *)
Theorem session_restores_registry (w : world) (ws : handle) (path : string)
    (frames : list inbound) (closing : result unit) :
  transport w !! ws = None → only_frames frames →
  let w' := (handle_client ws path frames closing w).2 in
  connected_clients w' = open_clients (transport w) (connected_clients w ∖ {[ws]})
  ∧ (settled w → ws ∉ connected_clients w → connected_clients w' = connected_clients w)
  ∧ (∀ h, h ∈ connected_clients w → h ≠ ws →
          transport w !! h ≠ Some ConnectionClosed → h ∈ connected_clients w').
Proof.
  intros Hopen Hfr w'.
  destruct (session_run ws path frames closing w Hopen Hfr) as [Hcs _].
  fold w' in Hcs. rewrite Hcs. split_and!.
  - done.
  - intros Hs Hnew. apply set_eq. intros c. unfold open_clients.
    rewrite elem_of_filter, elem_of_difference, elem_of_singleton. split.
    + by intros (_ & ? & _).
    + intros Hin. split_and!; [by apply Hs|done|]. intros ->. done.
  - intros h Hin Hne Hc. unfold open_clients.
    rewrite elem_of_filter, elem_of_difference, elem_of_singleton. done.
Qed.


(** What one connection receives of a run. *)







(** X15. send_to_client handles every exception of the send that derives
    from Exception (a cancelled task, which [except Exception] lets
    through, is not modelled): it then returns normally, with a WARNING
    for ConnectionClosed and an ERROR naming the exception otherwise; a
    send that is accepted leaves no record.  It calls send once, on its
    target; on ConnectionClosed the target, and nobody else, is discarded
    from the registry; on any other exception, and on success, the
    registry is as before. *)
Theorem send_to_client_contract (w : world) (ws : handle) (message : string) :
  let w' := (send_to_client ws message w).2 in
  (∀ e, (websocket_send ws message w).1 = Raise e →
        (send_to_client ws message w).1 = Ok tt
        ∧ logs (new_events w w')
          = [if decide (e = ConnectionClosed)
             then (WARNING, SendToClosedConnection)
             else (ERROR, ErrorSendingToClient e)])
  ∧ ((websocket_send ws message w).1 = Ok tt →
     (send_to_client ws message w).1 = Ok tt ∧ logs (new_events w w') = [])
  ∧ sends (new_events w w') = [(ws, message)]
  ∧ (transport w !! ws = Some ConnectionClosed →
     connected_clients w' = connected_clients w ∖ {[ws]})
  ∧ (transport w !! ws ≠ Some ConnectionClosed →
     connected_clients w' = connected_clients w)
  ∧ (transport w !! ws = None → delivered (new_events w w') = [(ws, message)])
  ∧ (transport w !! ws ≠ None → delivered (new_events w w') = []).
Proof.
  intros w'. unfold w'. rewrite send_to_client_run. simpl.
  rewrite new_events_fanned_out. simpl. rewrite app_nil_r.
  rewrite sends_send_events, delivered_send_events. unfold stale.
  split_and!.
  - intros e. unfold websocket_send, send_events.
    destruct (transport w !! ws) as [e'|]; simpl; [|discriminate].
    intros [= ->]. split; [done|]. by destruct e.
  - unfold websocket_send, send_events.
    destruct (transport w !! ws) as [e'|]; simpl; [discriminate|done].
  - done.
  - intros Hc. rewrite filter_cons_True by done. set_solver.
  - intros Hc. rewrite filter_cons_False by done. set_solver.
  - intros Ho. by rewrite decide_True.
  - intros Hf. by rewrite decide_False.
Qed.

(** X16. The loop over the gathered results writes one ERROR record for
    every exception among them, in order, and does nothing else: no send,
    no change of the registry, and it returns normally. *)
Theorem log_exceptions_records (results : list (result unit)) (w : world) :
  let w' := (log_exceptions results w).2 in
  (log_exceptions results w).1 = Ok tt
  ∧ connected_clients w' = connected_clients w
  ∧ sends (new_events w w') = []
  ∧ logs (new_events w w')
    = omap (λ r, match r with
                 | Ok _ => None
                 | Raise e => Some (ERROR, BroadcastError e)
                 end) results.
Proof.
  assert (∀ rs v,
            ∃ evs, log_exceptions rs v
                   = (Ok tt, World (connected_clients v) (transport v)
                                   (trace v ++ evs) (clock v))
                   ∧ sends evs = []
                   ∧ logs evs
                     = omap (λ r, match r with
                                  | Ok _ => None
                                  | Raise e => Some (ERROR, BroadcastError e)
                                  end) rs) as Hgen.
  { induction rs as [|[[]|e] rs IH]; intros v.
    - exists []. simpl. rewrite app_nil_r. by destruct v.
    - apply IH.
    - destruct (IH (emit (EvLog ERROR (BroadcastError e)) v)) as (evs & Hrun & Hs & Hl).
      exists (EvLog ERROR (BroadcastError e) :: evs). simpl.
      unfold mbind, M_bind, log. rewrite Hrun. simpl.
      rewrite <-app_assoc. simpl. by rewrite Hs, Hl. }
  intros w'. unfold w'. destruct (Hgen results w) as (evs & -> & Hs & Hl).
  simpl. by rewrite (new_events_app _ _ evs).
Qed.

End Sessions.

(** ** The claims on concrete runs *)

#[local] Existing Instance sample_library.

Lemma registry_set_semantics_witness :
  (1 ∈ ({[1; 2]} : gset nat) ∧ set_add 1 {[1; 2]} = ({[1; 2]} : gset nat))
  ∧ ((3 ∉ ({[1; 2]} : gset nat)) ∧ set_discard 3 {[1; 2]} = ({[1; 2]} : gset nat)).
Proof.
  assert (1 ∈ ({[1; 2]} : gset nat)) as Hin by (vm_compute; reflexivity).
  assert (3 ∉ ({[1; 2]} : gset nat)) as Hout by (vm_compute; discriminate).
  split; (split; [assumption|]).
  - destruct (registry_set_semantics {[1; 2]} 1) as (_ & _ & Hadd & _).
    destruct (Hadd Hin) as [Heq _]. exact Heq.
  - destruct (registry_set_semantics {[1; 2]} 3) as (_ & _ & _ & Hdiscard & _).
    destruct (Hdiscard Hout) as [Heq _]. exact Heq.
Defined.


Lemma closed_recipient_is_evicted_witness :
  1 ∈ connected_clients w_one_closed
  ∧ Some 1 ≠ (None : option nat)
  ∧ transport w_one_closed !! 1 = Some ConnectionClosed
  ∧ (broadcast error_msg None w_one_closed).1 = Ok tt
  ∧ (1 ∉ connected_clients (broadcast error_msg None w_one_closed).2)
  ∧ (2, json_dumps error_msg)
      ∈ delivered (new_events w_one_closed (broadcast error_msg None w_one_closed).2)
  ∧ 2 ∈ connected_clients (broadcast error_msg None w_one_closed).2.
Proof.
  assert (1 ∈ connected_clients w_one_closed) as Hin by (vm_compute; reflexivity).
  assert (Some 1 ≠ (None : option nat)) as Hne by discriminate.
  assert (transport w_one_closed !! 1 = Some ConnectionClosed) as Hclosed
    by (vm_compute; reflexivity).
  destruct (closed_recipient_is_evicted w_one_closed error_msg None 1 Hin Hne Hclosed)
    as (_ & Hok & _ & Hgone & Hothers).
  assert (2 ∈ connected_clients w_one_closed) as Hin2 by (vm_compute; reflexivity).
  assert (Some 2 ≠ (None : option nat)) as Hne2 by discriminate.
  assert (2 ≠ 1) as Hother by discriminate.
  destruct (Hothers 2 Hin2 Hne2 Hother) as [_ Hopen].
  assert (transport w_one_closed !! 2 = None) as Hopen2 by (vm_compute; reflexivity).
  destruct (Hopen Hopen2) as [Hdel Hstays].
  repeat (split; [assumption|]). assumption.
Defined.


Lemma failed_welcome_leaves_handle_registered_witness :
  transport w_newcomer_closed !! 3 = Some ConnectionClosed
  ∧ (handle_client 3 "/" [Recv "not-json"] (Ok tt) w_newcomer_closed).1
    = Raise ConnectionClosed
  ∧ 3 ∈ connected_clients
          (handle_client 3 "/" [Recv "not-json"] (Ok tt) w_newcomer_closed).2.
Proof.
  assert (transport w_newcomer_closed !! 3 = Some ConnectionClosed) as Hclosed
    by (vm_compute; reflexivity).
  split; [exact Hclosed|].
  destruct (failed_welcome_leaves_handle_registered w_newcomer_closed 3 "/"
              [Recv "not-json"] (Ok tt) ConnectionClosed Hclosed)
    as (Hraise & Hin & _).
  split; assumption.
Defined.

Lemma message_errors_do_not_end_session_witness :
  ((process_message "[1, 2]" (emit (EvLog INFO (ReceivedMessage "[1, 2]")) w_open)).1
   = Raise AttributeError
   ∧ AttributeError ≠ JSONDecodeError
   ∧ (on_message 1 "[1, 2]" w_open).1 = Ok tt)
  ∧ ((on_message 1 "not-json" w_one_closed).1 = Raise ConnectionClosed
     ∧ json_loads "not-json" = Raise JSONDecodeError
     ∧ transport w_one_closed !! 1 = Some ConnectionClosed)
  ∧ ((∀ others, Interleave others ∉ [Recv "not-json"; Recv "[1, 2]"])
     ∧ transport w_open !! 1 = None
     ∧ (inbound_loop 1 [Recv "not-json"; Recv "[1, 2]"] (Raise ConnectionClosed)
          w_open).1 = Raise ConnectionClosed).
Proof.
  split; [|split].
  - assert ((process_message "[1, 2]"
               (emit (EvLog INFO (ReceivedMessage "[1, 2]")) w_open)).1
            = Raise AttributeError) as Hraise by (vm_compute; reflexivity).
    assert (AttributeError ≠ JSONDecodeError) as Hne by discriminate.
    split; [exact Hraise|]. split; [exact Hne|].
    destruct (message_errors_do_not_end_session w_open 1 "[1, 2]") as [Hcaught _].
    destruct (Hcaught AttributeError Hraise Hne) as [Hturn _].
    rewrite Hturn. reflexivity.
  - assert ((on_message 1 "not-json" w_one_closed).1 = Raise ConnectionClosed)
      as Hout by (vm_compute; reflexivity).
    split; [exact Hout|].
    destruct (message_errors_do_not_end_session w_one_closed 1 "not-json")
      as (_ & Hends & _).
    destruct (Hends ConnectionClosed) as [Hwhy _]. exact (Hwhy Hout).
  - assert (∀ others, Interleave others ∉ [Recv "not-json"; Recv "[1, 2]"]) as Hfr.
    { intros others Hin.
      repeat (apply elem_of_cons in Hin as [Hin|Hin]; [discriminate|]).
      by apply elem_of_nil in Hin. }
    assert (transport w_open !! 1 = None) as Hopen by (vm_compute; reflexivity).
    split; [exact Hfr|]. split; [exact Hopen|].
    destruct (message_errors_do_not_end_session w_open 1 "not-json")
      as (_ & _ & _ & Hruns).
    exact (Hruns _ (Raise ConnectionClosed) Hfr Hopen).
Defined.

Lemma chat_envelope_fields_witness :
  json_loads (plain_dumps hi_alice) = Ok hi_alice
  ∧ sends (new_events w_open (on_message 1 (plain_dumps hi_alice) w_open).2)
    = map (λ client,
             (client,
              json_dumps (broadcast_msg (JStr "hi") (JStr "alice") (isoformat 0))))
          [2; 3; 1]
  ∧ (("room" ∉ ["type"; "content"; "sender"; "timestamp"])
     ∧ dict_get "room" (items_of (broadcast_msg (JStr "hi") (JStr "alice") (isoformat 0)))
       = None)
  ∧ (json_loads "{}" = Ok (JDict [])
     ∧ dict_get "content" [] = None
     ∧ dict_get "sender" [] = None
     ∧ items_of (broadcast_msg (JStr "") (JStr "anonymous") (isoformat 0))
       = [("type", JStr "message"); ("content", JStr ""); ("sender", JStr "anonymous");
          ("timestamp", JStr (isoformat 0))]).
Proof.
  assert (json_loads (plain_dumps hi_alice) = Ok hi_alice) as Hloads
    by (vm_compute; reflexivity).
  assert ("room" ∉ ["type"; "content"; "sender"; "timestamp"]) as Hroom.
  { intros Hin. repeat (apply elem_of_cons in Hin as [Hin|Hin]; [discriminate|]).
    by apply elem_of_nil in Hin. }
  destruct (chat_envelope_fields w_open 1 (plain_dumps hi_alice) _ Hloads)
    as (_ & Hsends & _ & _ & _ & _ & _ & Hkeys & _).
  split; [exact Hloads|]. split; [exact Hsends|]. split.
  - split; [exact Hroom|]. exact (Hkeys "room" Hroom).
  - assert (json_loads "{}" = Ok (JDict [])) as Hempty by (vm_compute; reflexivity).
    destruct (chat_envelope_fields w_open 1 "{}" [] Hempty)
      as (_ & _ & Hitems & _).
    split; [exact Hempty|]. split; [reflexivity|]. split; [reflexivity|].
    exact Hitems.
Defined.

Lemma invalid_json_gets_one_error_reply_witness :
  json_loads "not-json" = Raise JSONDecodeError
  ∧ sends (new_events w_open (on_message 1 "not-json" w_open).2)
    = [(1, json_dumps error_msg)]
  ∧ connected_clients (on_message 1 "not-json" w_open).2 = connected_clients w_open
  ∧ (transport w_open !! 1 = None ∧ stays_active 1 "not-json" w_open)
  ∧ (transport w_one_closed !! 1 = Some ConnectionClosed
     ∧ (on_message 1 "not-json" w_one_closed).1 = Raise ConnectionClosed)
  ∧ (json_loads deep_brackets = Raise (OtherError "RecursionError")
     ∧ OtherError "RecursionError" ≠ JSONDecodeError
     ∧ sends (new_events w_open (on_message 1 deep_brackets w_open).2) = []
     ∧ stays_active 1 deep_brackets w_open).
Proof.
  assert (json_loads "not-json" = Raise JSONDecodeError) as Hloads
    by (vm_compute; reflexivity).
  destruct (invalid_json_gets_one_error_reply w_open 1 "not-json") as [Hreply _].
  destruct (Hreply Hloads) as (_ & _ & Hsends & Hcs & Hopen & _).
  destruct (invalid_json_gets_one_error_reply w_one_closed 1 "not-json")
    as [Hreply' _].
  destruct (Hreply' Hloads) as (_ & _ & _ & _ & _ & Hraises).
  assert (transport w_open !! 1 = None) as Ho by (vm_compute; reflexivity).
  assert (transport w_one_closed !! 1 = Some ConnectionClosed) as Hc
    by (vm_compute; reflexivity).
  split; [exact Hloads|]. split; [exact Hsends|]. split; [exact Hcs|].
  split; [|split].
  - split; [exact Ho|]. destruct (Hopen Ho) as [Hactive _]. exact Hactive.
  - split; [exact Hc|]. destruct (Hraises _ Hc) as [Hout _]. exact Hout.
  - assert (json_loads deep_brackets = Raise (OtherError "RecursionError")) as Hdeep
      by (vm_compute; reflexivity).
    assert (OtherError "RecursionError" ≠ JSONDecodeError) as Hne by discriminate.
    destruct (invalid_json_gets_one_error_reply w_open 1 deep_brackets)
      as [_ Hsilent].
    destruct (Hsilent _ Hdeep Hne) as (_ & Hnone & _ & Hactive & _).
    split; [exact Hdeep|]. split; [exact Hne|]. split; [exact Hnone|exact Hactive].
Defined.


(** C2, where the code departs from it: connection 1 sends text that is no
    JSON and is closed by the time the error reply is sent.  The send
    raises inside the [except json.JSONDecodeError] clause, the exception
    leaves the loop, and the frame that follows is never read.  And text
    on which [json.loads] raises RecursionError is no valid JSON either,
    but gets no error envelope at all. *)
Lemma invalid_json_on_closed_connection_ends_session :
  json_loads "not-json" = Raise JSONDecodeError
  ∧ ¬ stays_active 1 "not-json" w_one_closed
  ∧ (inbound_loop 1 [Recv "not-json"; Recv (plain_dumps hi_alice)] (Ok tt)
       w_one_closed).1 = Raise ConnectionClosed
  ∧ trace (session 1 [Recv "not-json"; Recv (plain_dumps hi_alice)] (Ok tt)
             w_one_closed).2
    = [EvLog INFO (ReceivedMessage "not-json");
       EvLog ERROR (InvalidJSONReceived "not-json");
       EvSend 1 (json_dumps error_msg) (Raise ConnectionClosed);
       EvLog INFO ConnectionClosedNormally]
  ∧ json_loads deep_brackets = Raise (OtherError "RecursionError")
  ∧ sends (new_events w_open (on_message 1 deep_brackets w_open).2) = [].
Proof.
  split_and!; try (vm_compute; reflexivity).
  unfold stays_active. vm_compute. discriminate.
Qed.



(** C6, where the code departs from it: connection 3 is not closed, its
    iteration still has a frame to deliver, but a write to it fails.  Its
    frame that is no JSON ends the session: the exception of the error
    reply, which is no ConnectionClosed, leaves the loop, the chat frame
    behind it is never read, and the outer clause records an error in the
    client handler. *)
Lemma malformed_frame_ends_open_session :
  json_loads "not-json" = Raise JSONDecodeError
  ∧ (inbound_loop 3 [Recv "not-json"; Recv (plain_dumps hi_alice)] (Ok tt)
       w_write_fails).1 = Raise (OtherError "write failed")
  ∧ OtherError "write failed" ≠ ConnectionClosed
  ∧ trace (session 3 [Recv "not-json"; Recv (plain_dumps hi_alice)] (Ok tt)
             w_write_fails).2
    = [EvLog INFO (ReceivedMessage "not-json");
       EvLog ERROR (InvalidJSONReceived "not-json");
       EvSend 3 (json_dumps error_msg) (Raise (OtherError "write failed"));
       EvLog ERROR (ErrorInClientHandler (OtherError "write failed"))]
  ∧ (inbound_loop 3 [Recv (plain_dumps hi_alice)] (Ok tt) w_write_fails).1 = Ok tt.
Proof.
  split_and!; try (vm_compute; reflexivity). discriminate.
Qed.

(** ** The further properties on concrete runs *)

Lemma only_frames_three : only_frames three_frames.
Proof.
  intros others Hin. unfold three_frames in Hin.
  repeat (apply elem_of_cons in Hin as [Hin|Hin]; [discriminate|]).
  by apply elem_of_nil in Hin.
Qed.

Lemma no_clients_warning_iff_empty_witness :
  (connected_clients w_empty = ∅
   ∧ new_events w_empty (broadcast error_msg None w_empty).2
     = [EvLog WARNING NoClientsForBroadcast])
  ∧ (connected_clients w_solo = {[1]}
     ∧ new_events w_solo (broadcast error_msg (Some 1) w_solo).2 = []).
Proof.
  split.
  - assert (connected_clients w_empty = ∅) as Hcs by reflexivity.
    split; [exact Hcs|].
    destruct (no_clients_warning_iff_empty w_empty error_msg None) as (_ & Hempty & _).
    destruct (Hempty Hcs) as [Hevs _]. exact Hevs.
  - assert (connected_clients w_solo = {[1]}) as Hcs by reflexivity.
    split; [exact Hcs|].
    destruct (no_clients_warning_iff_empty w_solo error_msg (Some 1)) as (_ & _ & Hsolo).
    exact (Hsolo 1 Hcs eq_refl).
Defined.

Lemma broadcast_log_records_witness :
  (∀ client, client ∈ recipients None (connected_clients w_open) →
             transport w_open !! client = None)
  ∧ connected_clients w_open ≠ ∅
  ∧ logs (new_events w_open (broadcast error_msg None w_open).2) = [].
Proof.
  assert (∀ client, client ∈ recipients None (connected_clients w_open) →
                    transport w_open !! client = None) as Hopen
    by (intros client _; apply lookup_empty).
  assert (connected_clients w_open ≠ ∅) as Hcs by (vm_compute; discriminate).
  split; [exact Hopen|]. split; [exact Hcs|].
  destruct (broadcast_log_records w_open error_msg None) as (_ & _ & _ & Hquiet).
  exact (Hquiet Hopen Hcs).
Defined.


Lemma register_client_sends_witness :
  (transport w_open !! 4 = None
   ∧ inbox 4 (new_events w_open (register_client 4 w_open).2)
     = [json_dumps (welcome_msg 4 (isoformat 0))]
   ∧ inbox 2 (new_events w_open (register_client 4 w_open).2)
     = [json_dumps (joined_msg 4 (isoformat 1))])
  ∧ (transport w_empty !! 1 = None
     ∧ connected_clients w_empty ⊆ {[1]}
     ∧ sends (new_events w_empty (register_client 1 w_empty).2)
       = [(1, json_dumps (welcome_msg 1 (isoformat 0)))]).
Proof.
  split.
  - assert (transport w_open !! 4 = None) as Ho by (vm_compute; reflexivity).
    destruct (register_client_sends w_open 4 Ho) as (_ & Hself & Hothers & _).
    split; [exact Ho|]. split; [exact Hself|].
    apply (Hothers 2); [vm_compute; reflexivity|discriminate|vm_compute; reflexivity].
  - assert (transport w_empty !! 1 = None) as Ho by (vm_compute; reflexivity).
    assert (connected_clients w_empty ⊆ {[1]}) as Hsub.
    { intros c Hc. vm_compute in Hc. discriminate. }
    destruct (register_client_sends w_empty 1 Ho) as (_ & _ & _ & _ & Hfirst).
    split; [exact Ho|]. split; [exact Hsub|]. exact (Hfirst Hsub).
Defined.

Lemma unregister_client_announces_count_witness :
  (1 ∈ connected_clients w_open
   ∧ size (set_discard 1 (connected_clients w_open)) = size (connected_clients w_open) - 1)
  ∧ ((9 ∉ connected_clients w_open)
     ∧ size (set_discard 9 (connected_clients w_open)) = size (connected_clients w_open)).
Proof.
  split.
  - assert (1 ∈ connected_clients w_open) as Hin by (vm_compute; reflexivity).
    split; [exact Hin|].
    destruct (unregister_client_announces_count w_open 1) as (_ & _ & _ & Hless & _).
    exact (Hless Hin).
  - assert (9 ∉ connected_clients w_open) as Hout by (vm_compute; discriminate).
    split; [exact Hout|].
    destruct (unregister_client_announces_count w_open 9) as (_ & _ & _ & _ & Hsame & _).
    exact (Hsame Hout).
Defined.

Lemma turn_keeps_open_connections_witness :
  (json_loads (plain_dumps hi_alice) = Ok hi_alice
   ∧ connected_clients (on_message 2 (plain_dumps hi_alice) w_one_closed).2
     = open_clients (transport w_one_closed) (connected_clients w_one_closed))
  ∧ ((∀ items, json_loads "not-json" ≠ Ok (JDict items))
     ∧ connected_clients (on_message 2 "not-json" w_one_closed).2
       = connected_clients w_one_closed).
Proof.
  split.
  - assert (json_loads (plain_dumps hi_alice) = Ok hi_alice) as Hloads
      by (vm_compute; reflexivity).
    split; [exact Hloads|].
    destruct (turn_keeps_open_connections w_one_closed 2 (plain_dumps hi_alice))
      as (Hobject & _).
    exact (Hobject _ Hloads).
  - assert (∀ items, json_loads "not-json" ≠ Ok (JDict items)) as Hnot
      by (intros items; vm_compute; discriminate).
    split; [exact Hnot|].
    destruct (turn_keeps_open_connections w_one_closed 2 "not-json") as (_ & Hother & _).
    exact (Hother Hnot).
Defined.

Lemma closing_log_record_witness :
  (inbound_loop 1 three_frames (Ok tt) w_open).1 = Ok tt
  ∧ session 1 three_frames (Raise ConnectionClosed) w_open
    = (Ok tt, emit (EvLog INFO ConnectionClosedNormally)
                (inbound_loop 1 three_frames (Ok tt) w_open).2)
  ∧ (OtherError "connection reset" ≠ ConnectionClosed
     ∧ session 1 three_frames (Raise (OtherError "connection reset")) w_open
       = (Ok tt, emit (EvLog ERROR (ErrorInClientHandler (OtherError "connection reset")))
                   (inbound_loop 1 three_frames (Ok tt) w_open).2)).
Proof.
  assert ((inbound_loop 1 three_frames (Ok tt) w_open).1 = Ok tt) as Hend
    by (vm_compute; reflexivity).
  destruct (closing_log_record w_open 1 three_frames Hend) as (_ & Hclosed & Hother).
  split; [exact Hend|]. split; [exact Hclosed|].
  assert (OtherError "connection reset" ≠ ConnectionClosed) as Hne by discriminate.
  split; [exact Hne|]. exact (Hother _ Hne).
Defined.

Lemma session_restores_registry_witness :
  transport w_one_closed !! 4 = None
  ∧ only_frames three_frames
  ∧ connected_clients (handle_client 4 "/" three_frames (Ok tt) w_one_closed).2
    = {[2; 3]}
  ∧ (settled w_open ∧ (4 ∉ connected_clients w_open)
     ∧ connected_clients (handle_client 4 "/" three_frames (Ok tt) w_open).2
       = connected_clients w_open).
Proof.
  assert (transport w_one_closed !! 4 = None) as Ho by (vm_compute; reflexivity).
  split; [exact Ho|]. split; [exact only_frames_three|]. split.
  - destruct (session_restores_registry w_one_closed 4 "/" three_frames (Ok tt) Ho
                only_frames_three) as (Hcs & _).
    rewrite Hcs. vm_compute. reflexivity.
  - assert (transport w_open !! 4 = None) as Ho' by (vm_compute; reflexivity).
    assert (settled w_open) as Hs.
    { intros c _. unfold w_open. simpl. rewrite lookup_empty. discriminate. }
    assert (4 ∉ connected_clients w_open) as Hnew by (vm_compute; discriminate).
    destruct (session_restores_registry w_open 4 "/" three_frames (Ok tt) Ho'
                only_frames_three) as (_ & Hround & _).
    split; [exact Hs|]. split; [exact Hnew|]. exact (Hround Hs Hnew).
Defined.




Lemma send_to_client_contract_witness :
  (transport w_one_closed !! 1 = Some ConnectionClosed
   ∧ connected_clients (send_to_client 1 "hello" w_one_closed).2 = {[2; 3]})
  ∧ (transport w_reset !! 2 ≠ Some ConnectionClosed
     ∧ transport w_reset !! 2 ≠ None
     ∧ connected_clients (send_to_client 2 "hello" w_reset).2 = connected_clients w_reset
     ∧ delivered (new_events w_reset (send_to_client 2 "hello" w_reset).2) = [])
  ∧ (transport w_open !! 2 = None
     ∧ delivered (new_events w_open (send_to_client 2 "hello" w_open).2)
       = [(2, "hello")])
  ∧ ((websocket_send 2 "hello" w_reset).1 = Raise (OtherError "connection reset")
     ∧ (send_to_client 2 "hello" w_reset).1 = Ok tt)
  ∧ ((websocket_send 2 "hello" w_open).1 = Ok tt
     ∧ logs (new_events w_open (send_to_client 2 "hello" w_open).2) = []).
Proof.
  split; [|split; [|split; [|split]]].
  - assert (transport w_one_closed !! 1 = Some ConnectionClosed) as Hc
      by (vm_compute; reflexivity).
    split; [exact Hc|].
    destruct (send_to_client_contract w_one_closed 1 "hello")
      as (_ & _ & _ & Hevict & _).
    rewrite (Hevict Hc). vm_compute. reflexivity.
  - assert (transport w_reset !! 2 ≠ Some ConnectionClosed) as Hn
      by (vm_compute; discriminate).
    assert (transport w_reset !! 2 ≠ None) as Hf by (vm_compute; discriminate).
    destruct (send_to_client_contract w_reset 2 "hello")
      as (_ & _ & _ & _ & Hkeep & _ & Hnone).
    split; [exact Hn|]. split; [exact Hf|]. split; [exact (Hkeep Hn)|exact (Hnone Hf)].
  - assert (transport w_open !! 2 = None) as Ho by (vm_compute; reflexivity).
    split; [exact Ho|].
    destruct (send_to_client_contract w_open 2 "hello")
      as (_ & _ & _ & _ & _ & Hdel & _).
    exact (Hdel Ho).
  - assert ((websocket_send 2 "hello" w_reset).1 = Raise (OtherError "connection reset"))
      as Hraise by (vm_compute; reflexivity).
    split; [exact Hraise|].
    destruct (send_to_client_contract w_reset 2 "hello") as (Hcaught & _).
    destruct (Hcaught _ Hraise) as [Hok _]. exact Hok.
  - assert ((websocket_send 2 "hello" w_open).1 = Ok tt) as Hsent
      by (vm_compute; reflexivity).
    split; [exact Hsent|].
    destruct (send_to_client_contract w_open 2 "hello") as (_ & Hquiet & _).
    destruct (Hquiet Hsent) as [_ Hlogs]. exact Hlogs.
Defined.
